(** * Serverless leads site: the browser form handler (site/app.js) and the
    lead-intake contract, embedded in Rocq.

    JavaScript strings are sequences of UTF-16 code units; objects built by
    the script are association lists in insertion order; the handlers are
    written in a small state-and-exception monad over the document. *)

From Stdlib Require Import List NArith ZArith Bool Ascii String Lia.
From Stdlib Require Import DecimalString.
Import ListNotations.

Set Warnings "-register-all".

(** ** JavaScript strings *)

Module JsString.

Definition char16 := N.
Definition jsstring := list char16.

(** A source literal (ASCII text) as a JavaScript string. *)
Definition lit (s : string) : jsstring :=
  map N_of_ascii (list_ascii_of_string s).

Fixpoint eqb (a b : jsstring) : bool :=
  match a, b with
  | [], [] => true
  | x :: a', y :: b' => N.eqb x y && eqb a' b'
  | _, _ => false
  end.

(** ECMAScript WhiteSpace and LineTerminator code points: the set stripped by
    [String.prototype.trim] and matched by the class escape [\s]. *)
Definition isWhiteSpace (c : char16) : bool :=
  ((0x9 <=? c) && (c <=? 0xD) || (c =? 0x20) || (c =? 0xA0) || (c =? 0x1680)
   || (0x2000 <=? c) && (c <=? 0x200A)
   || (c =? 0x2028) || (c =? 0x2029) || (c =? 0x202F) || (c =? 0x205F)
   || (c =? 0x3000) || (c =? 0xFEFF))%N.

Fixpoint trimStart (s : jsstring) : jsstring :=
  match s with
  | c :: t => if isWhiteSpace c then trimStart t else s
  | [] => []
  end.

Definition trimEnd (s : jsstring) : jsstring := rev (trimStart (rev s)).

(** [s.trim()] *)
Definition trim (s : jsstring) : jsstring := trimEnd (trimStart s).

(** Truthiness of a string value: the empty string is the only falsy one. *)
Definition truthy (s : jsstring) : bool :=
  match s with [] => false | _ :: _ => true end.

(** [s.includes(t)] *)
Fixpoint prefixb (t s : jsstring) : bool :=
  match t, s with
  | [], _ => true
  | x :: t', y :: s' => N.eqb x y && prefixb t' s'
  | _ :: _, [] => false
  end.

Fixpoint includes (s t : jsstring) : bool :=
  prefixb t s || match s with [] => false | _ :: s' => includes s' t end.

(** [s.replace(/\/$/, "")]: the pattern has no flags, so [$] is the end of
    the input and the only possible match is a final solidus. *)
Definition solidus : char16 := 0x2F%N.

Fixpoint replace_trailing_solidus (s : jsstring) : jsstring :=
  match s with
  | [] => []
  | [c] => if N.eqb c solidus then [] else [c]
  | c :: t => c :: replace_trailing_solidus t
  end.

End JsString.
Export JsString.

(** ** Regular expressions of the script

    A backtracking matcher without back-references or look-around accepts
    exactly the words of the regular language, so [RegExp.prototype.test] on
    an anchored pattern is modelled by Brzozowski derivatives. *)

Module RegExp.

Inductive regex : Type :=
| Void
| Eps
| Class (p : char16 -> bool)
| Cat (r1 r2 : regex)
| Alt (r1 r2 : regex)
| Star (r : regex).

Definition Plus (r : regex) : regex := Cat r (Star r).
Definition Chr (c : char16) : regex := Class (N.eqb c).

Fixpoint nullable (r : regex) : bool :=
  match r with
  | Void => false
  | Eps => true
  | Class _ => false
  | Cat r1 r2 => nullable r1 && nullable r2
  | Alt r1 r2 => nullable r1 || nullable r2
  | Star _ => true
  end.

Fixpoint deriv (c : char16) (r : regex) : regex :=
  match r with
  | Void => Void
  | Eps => Void
  | Class p => if p c then Eps else Void
  | Cat r1 r2 =>
      if nullable r1 then Alt (Cat (deriv c r1) r2) (deriv c r2)
      else Cat (deriv c r1) r2
  | Alt r1 r2 => Alt (deriv c r1) (deriv c r2)
  | Star r1 => Cat (deriv c r1) (Star r1)
  end.

Fixpoint matches (r : regex) (s : jsstring) : bool :=
  match s with
  | [] => nullable r
  | c :: t => matches (deriv c r) t
  end.

(** [/^r$/.test(s)] *)
Definition test_anchored (r : regex) (s : jsstring) : bool := matches r s.

(** The language of a pattern. *)
Inductive lang : regex -> jsstring -> Prop :=
| L_Eps : lang Eps []
| L_Class p c : p c = true -> lang (Class p) [c]
| L_Cat r1 r2 u v : lang r1 u -> lang r2 v -> lang (Cat r1 r2) (u ++ v)
| L_AltL r1 r2 u : lang r1 u -> lang (Alt r1 r2) u
| L_AltR r1 r2 u : lang r2 u -> lang (Alt r1 r2) u
| L_StarNil r : lang (Star r) []
| L_StarCons r u v : lang r u -> lang (Star r) v -> lang (Star r) (u ++ v).

End RegExp.
Export RegExp.

(** ** JavaScript values and objects *)

Module Js.

(** An object built by the script or by [JSON.parse]: own properties in
    insertion order. *)
Definition object (V : Type) := list (jsstring * V).

Fixpoint get_prop {V} (o : object V) (k : jsstring) : option V :=
  match o with
  | [] => None
  | (k', v) :: o' => if JsString.eqb k' k then Some v else get_prop o' k
  end.

(** [o[k] = v]: an existing property keeps its place, a new one is added
    last. *)
Fixpoint set_prop {V} (o : object V) (k : jsstring) (v : V) : object V :=
  match o with
  | [] => [(k, v)]
  | (k', v') :: o' =>
      if JsString.eqb k' k then (k', v) :: o' else (k', v') :: set_prop o' k v
  end.

(** [Object.keys(o)] *)
Definition keys {V} (o : object V) : list jsstring := map fst o.

(** A Number value as far as this script observes one: its ToBoolean and its
    ToString. *)
Record number := { num_truthy : bool; num_text : jsstring }.

Inductive value : Type :=
| VNull
| VBool (b : bool)
| VNumber (n : number)
| VString (s : jsstring)
| VArray (items : list value)
| VObject (fields : list (jsstring * value)).

Inductive type_tag := T_object | T_boolean | T_number | T_string.

(** [typeof v] *)
Definition typeof (v : value) : type_tag :=
  match v with
  | VNull | VArray _ | VObject _ => T_object
  | VBool _ => T_boolean
  | VNumber _ => T_number
  | VString _ => T_string
  end.

(** ToBoolean *)
Definition ToBoolean (v : value) : bool :=
  match v with
  | VNull => false
  | VBool b => b
  | VNumber n => num_truthy n
  | VString s => JsString.truthy s
  | VArray _ | VObject _ => true
  end.

Fixpoint join_comma (l : list jsstring) : jsstring :=
  match l with
  | [] => []
  | [s] => s
  | s :: l' => s ++ lit "," ++ join_comma l'
  end.

(** ToString, as applied by [new Error(message)] to its argument; [None]
    when the conversion throws its TypeError.  An object is converted by its
    [toString] method: a value from [JSON.parse] inherits the one that gives
    [[object Object]], unless it holds a property of that name, which then
    cannot be a function, and neither can its [valueOf] give a primitive.
    An array joins the conversions of its elements, an absent text for
    [null]. *)
Fixpoint ToString (v : value) : option jsstring :=
  match v with
  | VNull => Some (lit "null")
  | VBool true => Some (lit "true")
  | VBool false => Some (lit "false")
  | VNumber n => Some (num_text n)
  | VString s => Some s
  | VArray items =>
      match
        (fix texts (l : list value) : option (list jsstring) :=
           match l with
           | [] => Some []
           | x :: l' =>
               match
                 match x with VNull => Some [] | _ => ToString x end,
                 texts l'
               with
               | Some a, Some r => Some (a :: r)
               | _, _ => None
               end
           end) items
      with
      | Some parts => Some (join_comma parts)
      | None => None
      end
  | VObject fields =>
      match get_prop fields (lit "toString") with
      | Some _ => None
      | None => Some (lit "[object Object]")
      end
  end.

(** Thrown values. *)
Record error := { err_name : jsstring; err_message : jsstring }.

(** [new Error(m)]; [None] when converting [m] throws. *)
Definition new_Error (m : value) : option error :=
  match ToString m with
  | Some text => Some {| err_name := lit "Error"; err_message := text |}
  | None => None
  end.

(** What the engine itself throws in this script: a property read from
    [null], a value that has no primitive form, text that [JSON.parse]
    rejects, an aborted [fetch].  The name of each error is fixed by the
    standards; its message text is the engine's own. *)
Inductive engine_fault :=
| NullRead (k : jsstring)
| NotPrimitive
| JsonSyntax (text : jsstring)
| Aborted.

Definition fault_name (f : engine_fault) : jsstring :=
  match f with
  | NullRead _ | NotPrimitive => lit "TypeError"
  | JsonSyntax _ => lit "SyntaxError"
  | Aborted => lit "AbortError"
  end.

(** [v.k] for a property name [k] that no built-in prototype defines (the
    script reads only [API_BASE_URL] and [message]): the own property of an
    object, [undefined] ([None]) on anything else, a TypeError on [null]. *)
Definition read_prop (v : value) (k : jsstring)
  : engine_fault + option value :=
  match v with
  | VNull => inl (NullRead k)
  | VObject fields => inr (get_prop fields k)
  | _ => inr None
  end.

(** [v?.k] *)
Definition read_prop_opt (v : value) (k : jsstring) : option value :=
  match v with
  | VObject fields => get_prop fields k
  | _ => None
  end.

End Js.
Export Js.

(** ** The browser around the script *)

Module Browser.

Record request_init := {
  init_method : option jsstring;            (* absent: GET *)
  init_headers : object jsstring;
  init_body : option jsstring;
  init_mode : option jsstring;
  init_cache : option jsstring
}.

(** How reading a response body ends. *)
Inductive body_outcome :=
| BodyText (text : jsstring)
| BodyError (e : error)
| BodyStalls.

Record response := {
  status : Z;
  statusText : jsstring;
  content_type : option jsstring;   (* [headers.get("content-type")] *)
  body : body_outcome
}.

(** [res.ok] *)
Definition res_ok (r : response) : bool :=
  ((200 <=? status r) && (status r <=? 299))%Z.

(** How a [fetch] left to itself settles, and after how many milliseconds. *)
Inductive fetch_outcome :=
| Resolves (after_ms : Z) (r : response)
| Rejects (after_ms : Z) (e : error)
| Stalls.

(** Everything a listener run reads from outside the document. *)
Record env := {
  network : jsstring -> request_init -> fetch_outcome;
  JSON_parse : jsstring -> option value;          (* [None]: SyntaxError *)
  JSON_stringify : value -> jsstring;
  navigator_userAgent : jsstring;
  document_referrer : jsstring;
  (* the name/value pairs [new URLSearchParams(location.search)] holds *)
  location_search : list (jsstring * jsstring);
  Date_now : Z;                                   (* time value of [new Date()] *)
  Date_fullYear : Z;                              (* [new Date().getFullYear()] *)
  engine_text : engine_fault -> jsstring          (* message of an engine error *)
}.

(** The error the engine throws for a fault. *)
Definition engine_error (E : env) (f : engine_fault) : error :=
  {| err_name := fault_name f; err_message := engine_text E f |}.

(** What an aborted [fetch] rejects with. *)
Definition AbortError (E : env) : error := engine_error E Aborted.

(** What [JSON.parse] throws on malformed text. *)
Definition SyntaxError_json (E : env) (text : jsstring) : error :=
  engine_error E (JsonSyntax text).

(** ToInt32 of an integer: the signed 32-bit integer it is congruent to
    modulo 2^32. *)
Definition ToInt32 (t : Z) : Z :=
  let m := (t mod 4294967296)%Z in
  if (m <? 2147483648)%Z then m else (m - 4294967296)%Z.

(** The delay [setTimeout(f, t)] works with: [t] converted to a 32-bit
    [long], and 0 when that is negative. *)
Definition setTimeout_delay (t : Z) : Z := Z.max 0 (ToInt32 t).

(** [p.get(k)]: the first value of the name, [null] ([None]) without one. *)
Fixpoint URLSearchParams_get (p : list (jsstring * jsstring)) (k : jsstring)
  : option jsstring :=
  match p with
  | [] => None
  | (n, v) :: p' => if JsString.eqb n k then Some v else URLSearchParams_get p' k
  end.

End Browser.
Export Browser.

(** ** The document the script works on

    The page markup is not part of the script; the elements the script looks
    up by id are fields of the document, the per-field error slots are those
    the page happens to provide. *)

Module Dom.

Record form_state := {
  name_value : jsstring;
  email_value : jsstring;
  message_value : jsstring;
  consent_checked : bool
}.

Record button := {
  disabled : bool;
  class_loading : bool          (* [classList] contains "loading" *)
}.

Record banner := {
  hidden : bool;
  textContent : jsstring
}.

Record document := {
  lead_form : form_state;
  form_defaults : form_state;   (* what [form.reset()] restores *)
  submit_btn : button;
  success : banner;
  failure : banner;
  (* the [.error] nodes by their [data-for] attribute, with their text *)
  error_slots : object jsstring;
  year : jsstring
}.

Definition with_form (d : document) (f : form_state) : document :=
  {| lead_form := f; form_defaults := form_defaults d;
     submit_btn := submit_btn d; success := success d; failure := failure d;
     error_slots := error_slots d; year := year d |}.

Definition with_submit_btn (d : document) (b : button) : document :=
  {| lead_form := lead_form d; form_defaults := form_defaults d;
     submit_btn := b; success := success d; failure := failure d;
     error_slots := error_slots d; year := year d |}.

Definition with_success (d : document) (b : banner) : document :=
  {| lead_form := lead_form d; form_defaults := form_defaults d;
     submit_btn := submit_btn d; success := b; failure := failure d;
     error_slots := error_slots d; year := year d |}.

Definition with_failure (d : document) (b : banner) : document :=
  {| lead_form := lead_form d; form_defaults := form_defaults d;
     submit_btn := submit_btn d; success := success d; failure := b;
     error_slots := error_slots d; year := year d |}.

Definition with_error_slots (d : document) (s : object jsstring) : document :=
  {| lead_form := lead_form d; form_defaults := form_defaults d;
     submit_btn := submit_btn d; success := success d; failure := failure d;
     error_slots := s; year := year d |}.

Definition with_year (d : document) (y : jsstring) : document :=
  {| lead_form := lead_form d; form_defaults := form_defaults d;
     submit_btn := submit_btn d; success := success d; failure := failure d;
     error_slots := error_slots d; year := y |}.

(** The two banners, by element id. *)
Inductive banner_id := Id_success | Id_failure.

Definition byId_banner (d : document) (i : banner_id) : banner :=
  match i with Id_success => success d | Id_failure => failure d end.

Definition set_banner (d : document) (i : banner_id) (b : banner) : document :=
  match i with
  | Id_success => with_success d b
  | Id_failure => with_failure d b
  end.

Definition other_banner (i : banner_id) : banner_id :=
  match i with Id_success => Id_failure | Id_failure => Id_success end.

End Dom.
Export Dom.

(** ** Effects of a listener run *)

Module Run.

(** What a run does, in order; each entry of the log pairs the step with the
    document as that step leaves it.  A step is one call or assignment of a
    listener: the browser neither renders nor runs another listener inside
    one. *)
Inductive action :=
| A_initYear
| A_fetch (url : jsstring) (init : request_init)
| A_setTimeout (ms : Z)
| A_clearTimeout
| A_setApiBase (url : jsstring)
| A_disableSubmit
| A_addListeners
| A_preventDefault
| A_showAlert (type : jsstring) (visible : bool) (customText : option jsstring)
| A_showErrors (errors : object jsstring)
| A_setLoading (loading : bool)
| A_consoleInfo (label : jsstring) (v : value)
| A_consoleError (label : jsstring) (e : error)
| A_formReset
| A_userInput (f : form_state).

Record world := {
  doc : document;
  API_BASE_URL : option jsstring;     (* the script's one global; [None]: null *)
  listening : bool;                   (* submit and reset listeners attached *)
  log : list (action * document)
}.

Inductive outcome (A : Type) :=
| Return (a : A)
| Throw (e : error)
| Pending.                            (* awaits a promise that never settles *)

Arguments Return {A} a.
Arguments Throw {A} e.
Arguments Pending {A}.

Definition M (A : Type) := world -> outcome A * world.

Definition ret {A} (a : A) : M A := fun w => (Return a, w).

Definition bind {A B} (m : M A) (k : A -> M B) : M B :=
  fun w =>
    match m w with
    | (Return a, w') => k a w'
    | (Throw e, w') => (Throw e, w')
    | (Pending, w') => (Pending, w')
    end.

Definition throw {A} (e : error) : M A := fun w => (Throw e, w).

Definition pending {A} : M A := fun w => (Pending, w).

(** [try { m } catch (err) { h err }] *)
Definition try_catch {A} (m : M A) (h : error -> M A) : M A :=
  fun w =>
    match m w with
    | (Throw e, w') => h e w'
    | r => r
    end.

(** [try { m } finally { f }]: the cleanup runs on return and on throw, and
    its own throw replaces the result. *)
Definition try_finally {A} (m : M A) (f : M unit) : M A :=
  fun w =>
    match m w with
    | (Pending, w') => (Pending, w')
    | (r, w') =>
        match f w' with
        | (Return _, w'') => (r, w'')
        | (Throw e, w'') => (Throw e, w'')
        | (Pending, w'') => (Pending, w'')
        end
    end.

Definition get_doc : M document := fun w => (Return (doc w), w).

Definition get_API_BASE_URL : M (option jsstring) :=
  fun w => (Return (API_BASE_URL w), w).

(** Perform one step: change the document and record it. *)
Definition step (a : action) (f : document -> document) : M unit :=
  fun w =>
    let d := f (doc w) in
    (Return tt,
     {| doc := d; API_BASE_URL := API_BASE_URL w; listening := listening w;
        log := log w ++ [(a, d)] |}).

Definition set_API_BASE_URL (u : jsstring) : M unit :=
  fun w =>
    (Return tt,
     {| doc := doc w; API_BASE_URL := Some u; listening := listening w;
        log := log w ++ [(A_setApiBase u, doc w)] |}).

Definition add_listeners : M unit :=
  fun w =>
    (Return tt,
     {| doc := doc w; API_BASE_URL := API_BASE_URL w; listening := true;
        log := log w ++ [(A_addListeners, doc w)] |}).

(** The world with another document and further log entries. *)
Definition put (w : world) (d : document) (l : list (action * document))
  : world :=
  {| doc := d; API_BASE_URL := API_BASE_URL w; listening := listening w;
     log := log w ++ l |}.

Declare Scope js_scope.
Delimit Scope js_scope with js.
Notation "'let*' x ':=' m 'in' k" := (bind m (fun x => k))
  (at level 10, x name, m at level 100, k at level 200) : js_scope.
Notation "m ';;' k" := (bind m (fun _ => k))
  (at level 100, right associativity) : js_scope.

End Run.
Export Run.

(** ** Dates: [Date.prototype.toISOString] on a time value (ECMA-262, 21.4) *)

Module JsDate.
Local Open Scope Z_scope.

Definition msPerDay : Z := 86400000.

Definition Day (t : Z) : Z := t / msPerDay.
Definition HourFromTime (t : Z) : Z := (t / 3600000) mod 24.
Definition MinFromTime (t : Z) : Z := (t / 60000) mod 60.
Definition SecFromTime (t : Z) : Z := (t / 1000) mod 60.
Definition msFromTime (t : Z) : Z := t mod 1000.

(** Year, month (1..12) and day of the month of a day number in the
    proleptic Gregorian calendar, by 400-year eras starting on 1 March. *)
Definition civil_from_days (days : Z) : Z * Z * Z :=
  let z := days + 719468 in
  let era := z / 146097 in
  let doe := z - era * 146097 in
  let yoe := (doe - doe / 1460 + doe / 36524 - doe / 146096) / 365 in
  let doy := doe - (365 * yoe + yoe / 4 - yoe / 100) in
  let mp := (5 * doy + 2) / 153 in
  let d := doy - (153 * mp + 2) / 5 + 1 in
  let m := if mp <? 10 then mp + 3 else mp - 9 in
  let y := yoe + era * 400 + (if m <=? 2 then 1 else 0) in
  (y, m, d).

Definition YearFromTime (t : Z) : Z := fst (fst (civil_from_days (Day t))).
Definition MonthFromTime (t : Z) : Z := snd (fst (civil_from_days (Day t))).
Definition DateFromTime (t : Z) : Z := snd (civil_from_days (Day t)).

Definition digit (d : Z) : char16 := (0x30 + Z.to_N d)%N.

(** The last [k] decimal digits of [n], most significant first. *)
Fixpoint digits (k : nat) (n : Z) : jsstring :=
  match k with
  | O => []
  | S k' => digits k' (n / 10) ++ [digit (n mod 10)]
  end.

(** Four digits for the years 0 to 9999, a sign and six digits otherwise. *)
Definition year_text (y : Z) : jsstring :=
  if (0 <=? y) && (y <=? 9999) then digits 4 y
  else (if y <? 0 then lit "-" else lit "+") ++ digits 6 (Z.abs y).

Definition toISOString (t : Z) : jsstring :=
  year_text (YearFromTime t) ++ lit "-" ++ digits 2 (MonthFromTime t)
    ++ lit "-" ++ digits 2 (DateFromTime t)
    ++ lit "T" ++ digits 2 (HourFromTime t)
    ++ lit ":" ++ digits 2 (MinFromTime t)
    ++ lit ":" ++ digits 2 (SecFromTime t)
    ++ lit "." ++ digits 3 (msFromTime t) ++ lit "Z".





End JsDate.
Export JsDate.

(** ** site/app.js *)

Module App.
Local Open Scope js_scope.

(** [await fetch(url, init)].  [abort_after] is the argument [setTimeout]
    got for the timer that aborts the request through its signal, when the
    caller armed one: a fetch that has not settled when that timer fires
    rejects with an AbortError. *)
Definition fetch (E : env) (url : jsstring) (init : request_init)
    (abort_after : option Z) : M response :=
  step (A_fetch url init) (fun d => d) ;;
  match network E url init, abort_after with
  | Resolves ms r, Some t =>
      if (setTimeout_delay t <=? ms)%Z then throw (AbortError E) else ret r
  | Resolves _ r, None => ret r
  | Rejects ms e, Some t =>
      if (setTimeout_delay t <=? ms)%Z then throw (AbortError E) else throw e
  | Rejects _ e, None => throw e
  | Stalls, Some _ => throw (AbortError E)
  | Stalls, None => pending
  end.

(** [await res.text()] *)
Definition res_text (res : response) : M value :=
  match body res with
  | BodyText t => ret (VString t)
  | BodyError e => throw e
  | BodyStalls => pending
  end.

(** [await res.json()] *)
Definition res_json (E : env) (res : response) : M value :=
  match body res with
  | BodyText t =>
      match JSON_parse E t with
      | Some v => ret v
      | None => throw (SyntaxError_json E t)
      end
  | BodyError e => throw e
  | BodyStalls => pending
  end.

Definition lift_read (E : env) (r : engine_fault + option value)
  : M (option value) :=
  match r with
  | inl f => throw (engine_error E f)
  | inr v => ret v
  end.

Definition config_url : jsstring := lit "./config.json".

Definition config_init : request_init :=
  {| init_method := None; init_headers := []; init_body := None;
     init_mode := None; init_cache := Some (lit "no-store") |}.

Definition loadConfig (E : env) : M unit :=
  try_catch
    (let* res := fetch E config_url config_init None in
     if negb (res_ok res) then ret tt
     else
       let* cfg := res_json E res in
       let* u := lift_read E (read_prop cfg (lit "API_BASE_URL")) in
       match u with
       | Some (VString s) =>
           if JsString.truthy (trim s)
           then set_API_BASE_URL (replace_trailing_solidus (trim s))
           else ret tt
       | _ => ret tt
       end)
    (fun _ => ret tt).

Definition utm_keys : list jsstring :=
  map lit ["utm_source"; "utm_medium"; "utm_campaign"; "utm_term";
           "utm_content"]%string.

(** The callback of the [forEach]: [if (p.get(k)) obj[k] = p.get(k)]. *)
Definition utm_step (p : list (jsstring * jsstring)) (obj : object value)
    (k : jsstring) : object value :=
  match URLSearchParams_get p k with
  | Some v => if JsString.truthy v then set_prop obj k (VString v) else obj
  | None => obj
  end.

Definition parseUTM (E : env) : object value :=
  let p := location_search E in
  fold_left (utm_step p) utm_keys [].

(** [/^[^\s@]+@[^\s@]+\.[^\s@]+$/] *)
Definition not_space_at (c : char16) : bool :=
  negb (isWhiteSpace c || N.eqb c 0x40).

Definition email_re : regex :=
  Cat (Plus (Class not_space_at))
    (Cat (Chr 0x40%N)
       (Cat (Plus (Class not_space_at))
          (Cat (Chr 0x2E%N) (Plus (Class not_space_at))))).

Record lead_data := {
  d_name : jsstring;
  d_email : jsstring;
  d_message : jsstring
}.

Record validation := {
  ok : bool;
  errors : object jsstring;
  data : lead_data
}.

Definition validate (form : form_state) : validation :=
  let errors : object jsstring := [] in
  let name := trim (name_value form) in
  let email := trim (email_value form) in
  let message := trim (message_value form) in
  let consent := consent_checked form in
  let errors :=
    if (List.length name <? 2)%nat
    then set_prop errors (lit "name") (lit "Please enter your full name.")
    else errors in
  let emailOk := test_anchored email_re email in
  let errors :=
    if negb emailOk
    then set_prop errors (lit "email") (lit "Please enter a valid email.")
    else errors in
  let errors :=
    if (List.length message <? 10)%nat
    then set_prop errors (lit "message")
           (lit "Please provide a few more details.")
    else errors in
  let errors :=
    if negb consent
    then set_prop errors (lit "consent")
           (lit "You must consent to be contacted.")
    else errors in
  {| ok := (List.length (keys errors) =? 0)%nat;
     errors := errors;
     data := {| d_name := name; d_email := email; d_message := message |} |}.

Definition field_keys : list jsstring :=
  map lit ["name"; "email"; "message"; "consent"]%string.

(** [errors[k] || ""] *)
Definition error_text (errors : object jsstring) (k : jsstring) : jsstring :=
  match get_prop errors k with
  | Some t => if JsString.truthy t then t else []
  | None => []
  end.

(** What [showErrors] does to the document: each of the four slots the page
    has gets the field's message, or the empty string. *)
Definition showErrors_dom (errors : object jsstring) (d : document)
  : document :=
  with_error_slots d
    (fold_left
       (fun slots k =>
          match get_prop slots k with
          | Some _ => set_prop slots k (error_text errors k)
          | None => slots
          end)
       field_keys (error_slots d)).

Definition showErrors (errors : object jsstring) : M unit :=
  step (A_showErrors errors) (showErrors_dom errors).

Definition setLoading_dom (loading : bool) (d : document) : document :=
  with_submit_btn d {| disabled := loading; class_loading := loading |}.

Definition setLoading (loading : bool) : M unit :=
  step (A_setLoading loading) (setLoading_dom loading).

Definition showAlert_dom (type : jsstring) (visible : bool)
    (customText : option jsstring) (d : document) : document :=
  let id :=
    if JsString.eqb type (lit "success") then Id_success else Id_failure in
  let node := byId_banner d id in
  let node :=
    match customText with
    | Some t =>
        if JsString.truthy t
        then {| hidden := hidden node; textContent := t |}
        else node
    | None => node
    end in
  let d := set_banner d id
             {| hidden := negb visible; textContent := textContent node |} in
  let other := other_banner id in
  set_banner d other
    {| hidden := true; textContent := textContent (byId_banner d other) |}.

Definition showAlert (type : jsstring) (visible : bool)
    (customText : option jsstring) : M unit :=
  step (A_showAlert type visible customText)
    (showAlert_dom type visible customText).

Definition buildPayload (E : env) (form : form_state) : value :=
  let data := data (validate form) in
  let utm := parseUTM E in
  VObject
    [ (lit "name", VString (d_name data));
      (lit "email", VString (d_email data));
      (lit "message", VString (d_message data));
      (lit "utm", VObject utm);
      (lit "userAgent", VString (navigator_userAgent E));
      (lit "referer",
        if JsString.truthy (document_referrer E)
        then VString (document_referrer E) else VNull);
      (lit "ts", VString (toISOString (Date_now E))) ].

(** [res.headers.get("content-type")?.includes("application/json")] *)
Definition isJson (res : response) : bool :=
  match content_type res with
  | Some ct => includes ct (lit "application/json")
  | None => false
  end.

(** [typeof payload === "object" && payload?.message ? payload.message
     : res.statusText] *)
Definition errMsg_of (payload : value) (res : response) : value :=
  match typeof payload, read_prop_opt payload (lit "message") with
  | T_object, Some m => if ToBoolean m then m else VString (statusText res)
  | _, _ => VString (statusText res)
  end.

Definition default_timeoutMs : Z := 10000.

Definition post_init (E : env) (body : value) : request_init :=
  {| init_method := Some (lit "POST");
     init_headers := [(lit "Content-Type", lit "application/json")];
     init_body := Some (JSON_stringify E body);
     init_mode := Some (lit "cors");
     init_cache := None |}.

Definition postJSON (E : env) (url : jsstring) (body : value)
    (timeoutMs : option Z) : M value :=
  let timeoutMs :=
    match timeoutMs with Some t => t | None => default_timeoutMs end in
  step (A_setTimeout timeoutMs) (fun d => d) ;;
  try_catch
    (let* res := fetch E url (post_init E body) (Some timeoutMs) in
     step A_clearTimeout (fun d => d) ;;
     let* payload := if isJson res then res_json E res else res_text res in
     if negb (res_ok res) then
       let errMsg := errMsg_of payload res in
       match new_Error (if ToBoolean errMsg then errMsg
                        else VString (lit "Request failed")) with
       | Some err => throw err
       | None => throw (engine_error E NotPrimitive)
       end
     else ret payload)
    (fun err => step A_clearTimeout (fun d => d) ;; throw err).

Definition initYear_dom (E : env) (d : document) : document :=
  with_year d (lit (NilZero.string_of_int (Z.to_int (Date_fullYear E)))).

Definition initYear (E : env) : M unit :=
  step A_initYear (initYear_dom E).

(** The text of the two messages the script writes into the failure banner:
    U+2699 U+FE0F and U+274C are the pictographs that open them. *)
Definition not_configured_text : jsstring :=
  [0x2699; 0xFE0F]%N
    ++ lit " Form not configured yet. Please try again later.".

Definition went_wrong_text : jsstring :=
  [0x274C]%N ++ lit " Something went wrong. Please try again in a moment.".

(** A template literal's conversion of the global. *)
Definition template_API_BASE_URL (b : option jsstring) : jsstring :=
  match b with
  | Some s => s
  | None => lit "null"
  end.

(** [form.reset()] *)
Definition formReset_dom (d : document) : document :=
  with_form d (form_defaults d).

(** The submit listener of the lead form. *)
Definition on_submit (E : env) : M unit :=
  step A_preventDefault (fun d => d) ;;
  showAlert (lit "success") false None ;;
  showAlert (lit "error") false None ;;
  let* d := get_doc in
  let v := validate (lead_form d) in
  showErrors (errors v) ;;
  if negb (ok v) then ret tt
  else
    setLoading true ;;
    try_finally
      (try_catch
         (let* d := get_doc in
          let payload := buildPayload E (lead_form d) in
          let* base := get_API_BASE_URL in
          let* resp :=
            postJSON E (template_API_BASE_URL base ++ lit "/lead") payload
              None in
          step (A_consoleInfo (lit "Lead submitted:") resp) (fun d => d) ;;
          showAlert (lit "success") true None ;;
          step A_formReset formReset_dom)
         (fun err =>
            step (A_consoleError (lit "Submit failed:") err) (fun d => d) ;;
            showAlert (lit "error") true (Some went_wrong_text)))
      (setLoading false).

(** The click listener of the reset button. *)
Definition on_reset_click : M unit :=
  showErrors [] ;;
  showAlert (lit "success") false None ;;
  showAlert (lit "error") false None.

(** [!API_BASE_URL] *)
Definition not_configured (b : option jsstring) : bool :=
  match b with
  | Some s => negb (JsString.truthy s)
  | None => true
  end.

(** [submitBtn.disabled = true] *)
Definition disableSubmit_dom (d : document) : document :=
  with_submit_btn d
    {| disabled := true; class_loading := class_loading (submit_btn d) |}.

(** The DOMContentLoaded listener. *)
Definition on_DOMContentLoaded (E : env) : M unit :=
  initYear E ;;
  loadConfig E ;;
  let* base := get_API_BASE_URL in
  if not_configured base then
    step A_disableSubmit disableSubmit_dom ;;
    showAlert (lit "error") true (Some not_configured_text)
  else add_listeners.

(** *** The page over time *)

Inductive page_event :=
| Ev_submit                       (* the form is submitted *)
| Ev_reset_click                  (* the reset button is clicked *)
| Ev_user_input (f : form_state). (* the visitor edits the fields *)

Definition initial_world (d : document) : world :=
  {| doc := d; API_BASE_URL := None; listening := false; log := [] |}.

(** One event, with the surroundings it happens in; a listener runs only
    once it has been attached.  A listener run is taken whole: an event that
    arrives while a request is in flight is dispatched after the run. *)
Definition dispatch (w : world) (ev : env * page_event) : world :=
  match snd ev with
  | Ev_submit => if listening w then snd (on_submit (fst ev) w) else w
  | Ev_reset_click => if listening w then snd (on_reset_click w) else w
  | Ev_user_input f =>
      snd (step (A_userInput f) (fun d => with_form d f) w)
  end.

(** The page from its load through a sequence of events. *)
Definition lifecycle (E0 : env) (d0 : document)
    (evs : list (env * page_event)) : world :=
  fold_left dispatch evs (snd (on_DOMContentLoaded E0 (initial_world d0))).

(** The requests a log holds, by method. *)
Definition is_post (a : action) : bool :=
  match a with
  | A_fetch _ init =>
      match init_method init with
      | Some m => JsString.eqb m (lit "POST")
      | None => false
      end
  | _ => false
  end.

Definition posts (l : list (action * document)) : list (action * document) :=
  filter (fun e => is_post (fst e)) l.

Definition is_fetch (a : action) : bool :=
  match a with A_fetch _ _ => true | _ => false end.

Definition is_setLoading (a : action) : bool :=
  match a with A_setLoading _ => true | _ => false end.

(** A banner is visible when it is not hidden. *)
Definition visible (b : banner) : bool := negb (hidden b).

Definition exactly_one_banner (d : document) : bool :=
  xorb (visible (success d)) (visible (failure d)).

Definition at_most_one_banner (d : document) : bool :=
  negb (visible (success d) && visible (failure d)).

(** The targets of the requests of a log, in order. *)
Definition fetch_urls (l : list (action * document)) : list jsstring :=
  flat_map
    (fun e => match fst e with A_fetch url _ => [url] | _ => [] end) l.

End App.
Export App.

(** ** Invariants of runs *)

Module Invariants.

(** A computation keeps [I] when every run from a world in [I] ends in one,
    however it ends. *)
Definition keeps (I : world -> Prop) {A} (m : M A) : Prop :=
  forall w, I w -> I (snd (m w)).

(** At most one banner shows, now and at every recorded step. *)
Definition banner_inv (w : world) : Prop :=
  at_most_one_banner (doc w) = true
  /\ Forall (fun e => at_most_one_banner (snd e) = true) (log w).

End Invariants.
Export Invariants.

(** ** The lead-intake handler

    The repository holds the handler's README only; the handler is modelled
    from the specification's processing sequence. *)

Module LeadHandler.
Local Open Scope Z_scope.

(** Modelled from the spec: the Lead Record of the data model (the handler
    that builds it is absent from the repository). *)
Record lead_record := {
  id : jsstring;
  name : jsstring;
  email : jsstring;
  message : jsstring;
  utm : option value;
  userAgent : option value;
  referer : option value;
  submittedAt : Z;                (* seconds since the epoch *)
  expiresAt : option Z
}.

(** Modelled from the spec: the handler's runtime configuration (README,
    Environment variables): sender address, owner recipients, and the optional
    retention window in days. *)
Record config := {
  SES_FROM : jsstring;
  SES_OWNER_TO : list jsstring;
  TTL_DAYS : option Z
}.

(** Modelled from the spec: what one invocation of the absent handler meets:
    the identifier generated for it, the server clock, and whether the store
    write and each of the two sends succeed. *)
Record invocation := {
  fresh_id : jsstring;
  now : Z;
  store_accepts : bool;
  confirmation_sent : bool;
  alert_sent : bool
}.

(** Modelled from the spec: the calls the absent handler makes on the store,
    the mail service and its log. *)
Inductive effect :=
| StoreWrite (r : lead_record)
| SendConfirmation (to : jsstring)
| SendAlert (to : list jsstring)
| LogFailure (what : jsstring).

(** Modelled from the spec: the HTTP reply of the absent handler, a status
    and a JSON body. *)
Record reply := {
  statusCode : Z;
  reply_body : object value
}.

(** Modelled from the spec: a day of the retention window, in the seconds
    the timestamps of the absent handler count. *)
Definition seconds_per_day : Z := 86400.

(** Modelled from the spec: a required string field of the request body,
    trimmed as the absent handler sanitizes it. *)
Definition string_field (b : value) (k : jsstring) : option jsstring :=
  match read_prop_opt b k with
  | Some (VString s) => Some (trim s)
  | _ => None
  end.

(** Modelled from the spec: step 1 of the processing sequence, the server's
    own validation, absent from the repository: a missing or unparsable body
    ([None]) and a [name], [email] or [message] that is not a string or fails
    the rule of the client's table are rejected. *)
Definition server_validate (body : option value) : option lead_data :=
  match body with
  | None => None
  | Some b =>
      match string_field b (lit "name"), string_field b (lit "email"),
            string_field b (lit "message") with
      | Some n, Some e, Some m =>
          if ((2 <=? List.length n)%nat && test_anchored email_re e
              && (10 <=? List.length m)%nat)%bool
          then Some {| d_name := n; d_email := e; d_message := m |}
          else None
      | _, _, _ => None
      end
  end.

(** Modelled from the spec: step 3, [expiresAt] is computed only if a
    retention window is configured, as [submittedAt] plus the window. *)
Definition expiry (cfg : config) (submitted : Z) : option Z :=
  match TTL_DAYS cfg with
  | Some n => Some (submitted + n * seconds_per_day)
  | None => None
  end.

(** Modelled from the spec: the owner recipients fall back to the sender
    address when no owner list is configured. *)
Definition owner_recipients (cfg : config) : list jsstring :=
  match SES_OWNER_TO cfg with
  | [] => [SES_FROM cfg]
  | l => l
  end.

(** Modelled from the spec: step 5, both notifications are attempted, and a
    failure of either is only logged. *)
Definition notify (cfg : config) (I : invocation) (r : lead_record)
  : list effect :=
  (SendConfirmation (email r)
     :: if confirmation_sent I then []
        else [LogFailure (lit "confirmation")])
  ++ (SendAlert (owner_recipients cfg)
        :: if alert_sent I then [] else [LogFailure (lit "alert")]).

(** Modelled from the spec: the Lead Intake Handler, steps 1 to 6 of its
    processing sequence (the handler's source is absent from the
    repository). *)
Definition handler (cfg : config) (I : invocation) (body : option value)
  : reply * list effect :=
  match server_validate body with
  | None =>
      ({| statusCode := 400;
          reply_body := [(lit "message", VString (lit "Invalid request"))] |},
       [])
  | Some d =>
      let submitted := now I in
      let r :=
        {| id := fresh_id I;
           name := d_name d; email := d_email d; message := d_message d;
           utm := match body with
                  | Some b => read_prop_opt b (lit "utm")
                  | None => None
                  end;
           userAgent := match body with
                        | Some b => read_prop_opt b (lit "userAgent")
                        | None => None
                        end;
           referer := match body with
                      | Some b => read_prop_opt b (lit "referer")
                      | None => None
                      end;
           submittedAt := submitted;
           expiresAt := expiry cfg submitted |} in
      if store_accepts I then
        ({| statusCode := 200;
            reply_body := [(lit "id", VString (id r))] |},
         StoreWrite r :: notify cfg I r)
      else
        ({| statusCode := 500;
            reply_body :=
              [(lit "message", VString (lit "Internal error"))] |},
         [StoreWrite r; LogFailure (lit "store")])
  end.

(** Modelled from the spec: a notification attempt among the effects of the
    absent handler. *)
Definition is_send (e : effect) : bool :=
  match e with
  | SendConfirmation _ | SendAlert _ => true
  | _ => false
  end.

(** Modelled from the spec: the records an invocation of the absent handler
    leaves in the store: its write, when the store accepted it. *)
Definition persisted (I : invocation) (effects : list effect)
  : list lead_record :=
  if store_accepts I then
    flat_map (fun e => match e with StoreWrite r => [r] | _ => [] end) effects
  else [].

End LeadHandler.

(** ** The vocabulary of the specification

    Notions the specification uses and the script does not name: the
    e-mail shape, a supplied attribution key, the body of a response, a
    usable configuration document. *)

Module Wording.

(** A code unit that is neither white space nor the commercial at. *)
Definition plain (c : char16) : Prop :=
  isWhiteSpace c = false /\ c <> 0x40%N.

(** [local@domain.tld]: a non-empty local part, one [@], a non-empty domain,
    a full stop and a non-empty last label, none of the three parts holding
    white space or a further [@]. *)
Definition local_at_domain_tld (s : jsstring) : Prop :=
  exists l d t,
    s = l ++ [0x40%N] ++ d ++ [0x2E%N] ++ t
    /\ l <> [] /\ d <> [] /\ t <> []
    /\ Forall plain l /\ Forall plain d /\ Forall plain t.


(** The body of a response as the specification reads it: parsed as JSON
    when the content type indicates JSON, taken as text otherwise; [None]
    when it does not arrive or does not parse. *)
Definition parsed_body (E : env) (res : response) : option value :=
  match Browser.body res with
  | BodyText t => if isJson res then JSON_parse E t else Some (VString t)
  | _ => None
  end.

(** The runtime configuration document is absent, malformed, or holds no
    non-empty string [API_BASE_URL]. *)
Inductive config_unusable (E : env) : Prop :=
| cu_unreachable ms e :
    network E config_url config_init = Rejects ms e -> config_unusable E
| cu_absent ms res :
    network E config_url config_init = Resolves ms res ->
    res_ok res = false -> config_unusable E
| cu_unreadable ms res e :
    network E config_url config_init = Resolves ms res ->
    res_ok res = true -> Browser.body res = BodyError e -> config_unusable E
| cu_malformed ms res t :
    network E config_url config_init = Resolves ms res ->
    res_ok res = true -> Browser.body res = BodyText t ->
    JSON_parse E t = None -> config_unusable E
| cu_no_base ms res t cfg :
    network E config_url config_init = Resolves ms res ->
    res_ok res = true -> Browser.body res = BodyText t ->
    JSON_parse E t = Some cfg ->
    (forall s, read_prop cfg (lit "API_BASE_URL") = inr (Some (VString s)) ->
               s = []) ->
    config_unusable E.

(** The runtime configuration document arrives, parses, and holds the string
    [s] as its [API_BASE_URL]. *)
Definition config_names (E : env) (s : jsstring) : Prop :=
  exists ms res t cfg,
    network E config_url config_init = Resolves ms res
    /\ res_ok res = true
    /\ Browser.body res = BodyText t
    /\ JSON_parse E t = Some cfg
    /\ read_prop cfg (lit "API_BASE_URL") = inr (Some (VString s)).

End Wording.
Export Wording.

(** ** Concrete pages, servers and visitors *)

Module Examples.

Definition quoted (s : jsstring) : jsstring := [0x22%N] ++ s ++ [0x22%N].

(** The text [{"k":"v"}]. *)
Definition json_text (k v : jsstring) : jsstring :=
  lit "{" ++ quoted k ++ lit ":" ++ quoted v ++ lit "}".

Definition blank_form : form_state :=
  {| name_value := []; email_value := []; message_value := [];
     consent_checked := false |}.

Definition jane_form : form_state :=
  {| name_value := lit "Jane";
     email_value := lit "jane@example.com";
     message_value := lit "Hello, I am interested in your services!";
     consent_checked := true |}.

Definition hasty_form : form_state :=
  {| name_value := lit " J ";
     email_value := lit "not-an-email";
     message_value := lit "Hello!";
     consent_checked := false |}.

(** A page with both banners hidden, the button enabled and one error slot
    per field. *)
Definition page (f : form_state) : document :=
  {| lead_form := f;
     form_defaults := blank_form;
     submit_btn := {| disabled := false; class_loading := false |};
     success := {| hidden := true; textContent := lit "Thank you!" |};
     failure := {| hidden := true; textContent := [] |};
     error_slots := map (fun k => (k, [])) field_keys;
     year := [] |}.

Definition json_response (code : Z) (reason text : jsstring) : response :=
  {| status := code; statusText := reason;
     content_type := Some (lit "application/json");
     body := BodyText text |}.

Definition text_response (code : Z) (reason text : jsstring) : response :=
  {| status := code; statusText := reason;
     content_type := Some (lit "text/plain");
     body := BodyText text |}.

(** A serializer good enough for the examples (no escaping). *)
Fixpoint stringify (v : value) : jsstring :=
  match v with
  | VNull => lit "null"
  | VBool true => lit "true"
  | VBool false => lit "false"
  | VNumber n => num_text n
  | VString s => quoted s
  | VArray items => lit "[" ++ join_comma (map stringify items) ++ lit "]"
  | VObject fields =>
      lit "{"
        ++ join_comma
             (map (fun kv => quoted (fst kv) ++ lit ":" ++ stringify (snd kv))
                fields)
        ++ lit "}"
  end.

(** Surroundings in which the configuration request and every other request
    settle as given, and the parser knows the listed documents. *)
Definition surroundings (config lead : fetch_outcome)
    (documents : object value) : env :=
  {| network := fun url _ =>
       if JsString.eqb url config_url then config else lead;
     JSON_parse := get_prop documents;
     JSON_stringify := stringify;
     navigator_userAgent := lit "Mozilla/5.0";
     document_referrer := [];
     location_search :=
       [(lit "utm_source", lit "linkedin"); (lit "utm_medium", []);
        (lit "page", lit "2")];
     Date_now := 1700000000000;
     Date_fullYear := 2023;
     engine_text := fun f =>
       match f with
       | NullRead _ => lit "Cannot read properties of null"
       | NotPrimitive => lit "Cannot convert object to primitive value"
       | JsonSyntax _ => lit "Unexpected token in JSON"
       | Aborted => lit "The user aborted a request."
       end |}.

Definition config_text (base : jsstring) : jsstring :=
  json_text (lit "API_BASE_URL") base.

Definition config_doc (base : jsstring) : value :=
  VObject [(lit "API_BASE_URL", VString base)].

Definition created_text : jsstring := json_text (lit "id") (lit "7f3a").
Definition created_doc : value := VObject [(lit "id", VString (lit "7f3a"))].

(** A deployment whose configuration names [base] and whose intake endpoint
    answers 200 with an identifier. *)
Definition deployed (base : jsstring) : env :=
  surroundings
    (Resolves 20 (json_response 200 (lit "OK") (config_text base)))
    (Resolves 120 (json_response 200 (lit "OK") created_text))
    [(config_text base, config_doc base); (created_text, created_doc)].

(** A deployment without a configuration document. *)
Definition unconfigured : env :=
  surroundings
    (Resolves 20 (text_response 404 (lit "Not Found") (lit "not found")))
    Stalls [].

(** A deployment whose intake endpoint answers over HTTP/2 (no reason
    phrase) with a 500 and a plain-text body. *)
Definition failing (base : jsstring) : env :=
  surroundings
    (Resolves 20 (json_response 200 (lit "OK") (config_text base)))
    (Resolves 120 (text_response 500 [] (lit "upstream unavailable")))
    [(config_text base, config_doc base)].

Definition base : jsstring := lit "https://api.example.com/prod".

Definition refusal_text : jsstring :=
  json_text (lit "message") (lit "Invalid request").

Definition refusal_doc : value :=
  VObject [(lit "message", VString (lit "Invalid request"))].

(** A deployment whose intake endpoint refuses with a 400 and a JSON body
    that carries a message. *)
Definition rejecting (base : jsstring) : env :=
  surroundings
    (Resolves 20 (json_response 200 (lit "OK") (config_text base)))
    (Resolves 120 (json_response 400 (lit "Bad Request") refusal_text))
    [(config_text base, config_doc base); (refusal_text, refusal_doc)].

(** The page once the listeners are attached against [b]. *)
Definition ready (b : jsstring) (f : form_state) : world :=
  {| doc := page f; API_BASE_URL := Some b; listening := true; log := [] |}.

(** The same page after a failed attempt: the failure banner shows. *)
Definition retrying (b : jsstring) (f : form_state) : world :=
  {| doc := with_failure (page f)
              {| hidden := false; textContent := went_wrong_text |};
     API_BASE_URL := Some b; listening := true; log := [] |}.

(** A base URL configured with two final solidi. *)
Definition slashed : jsstring := lit "https://api.example.com//".

(** A request body as the gateway hands it to the handler. *)
Definition jane_body : value :=
  VObject
    [ (lit "name", VString (lit "Jane"));
      (lit "email", VString (lit "jane@example.com"));
      (lit "message",
        VString (lit "Hello, I am interested in your services!"));
      (lit "utm", VObject [(lit "utm_source", VString (lit "linkedin"))]) ].

Definition half_year : LeadHandler.config :=
  {| LeadHandler.SES_FROM := lit "leads@example.com";
     LeadHandler.SES_OWNER_TO := [];
     LeadHandler.TTL_DAYS := Some 180%Z |}.

(** An invocation at server time [1700000000] in which the store may or may
    not accept the write and both sends fail. *)
Definition quiet_mail (stored : bool) : LeadHandler.invocation :=
  {| LeadHandler.fresh_id := lit "7f3a";
     LeadHandler.now := 1700000000%Z;
     LeadHandler.store_accepts := stored;
     LeadHandler.confirmation_sent := false;
     LeadHandler.alert_sent := false |}.

End Examples.

(** ** Conditions on the surroundings of a run *)

Module Conditions.

(** A fetch that has not settled when a timer of [T] milliseconds fires. *)
Definition late (T : Z) (o : fetch_outcome) : bool :=
  match o with
  | Resolves ms _ | Rejects ms _ => (T <=? ms)%Z
  | Stalls => true
  end.

(** The request gets, in time, a success status and a body that reads as
    [p]. *)
Definition accepted (E : env) (url : jsstring) (init : request_init)
    (T : Z) (p : value) : Prop :=
  exists ms res,
    network E url init = Resolves ms res
    /\ (ms < T)%Z /\ res_ok res = true /\ parsed_body E res = Some p.

(** The response arrives in time and its body never does. *)
Definition body_stalls (E : env) (url : jsstring) (init : request_init)
    (T : Z) : Prop :=
  exists ms res,
    network E url init = Resolves ms res
    /\ (ms < T)%Z /\ Browser.body res = BodyStalls.

(** [s'] is [s] with white space added at either end. *)
Definition padded (s s' : jsstring) : Prop :=
  exists a b,
    s' = a ++ s ++ b
    /\ Forall (fun c => isWhiteSpace c = true) a
    /\ Forall (fun c => isWhiteSpace c = true) b.

(** The configuration request never completes: no answer, or an answer
    whose body never arrives. *)
Definition config_stalls (E : env) : Prop :=
  network E config_url config_init = Stalls
  \/ exists ms res,
       network E config_url config_init = Resolves ms res
       /\ res_ok res = true /\ Browser.body res = BodyStalls.

(** The text of the failure banner is the page's own or one of the two
    messages of the script. *)
Definition failure_text_known (d0 d : document) : Prop :=
  textContent (failure d) = textContent (failure d0)
  \/ textContent (failure d) = not_configured_text
  \/ textContent (failure d) = went_wrong_text.

(** The banners of [d] hold the success text of the page [d0] and a known
    failure text. *)
Definition texts_ok (d0 d : document) : Prop :=
  textContent (success d) = textContent (success d0)
  /\ failure_text_known d0 d.

(** So it is now and at every recorded step. *)
Definition texts_inv (d0 : document) (w : world) : Prop :=
  texts_ok d0 (doc w) /\ Forall (fun e => texts_ok d0 (snd e)) (log w).

End Conditions.
Export Conditions.

(** * Properties *)

(** ** Strings *)

Lemma jseqb_eq (a b : jsstring) : JsString.eqb a b = true <-> a = b.
Proof.
  revert b; induction a as [|x a IH]; intros [|y b]; simpl;
    try (split; congruence).
  rewrite andb_true_iff, N.eqb_eq, IH. split.
  - intros [-> ->]; reflexivity.
  - intros H; injection H; auto.
Qed.

Lemma jseqb_refl (a : jsstring) : JsString.eqb a a = true.
Proof. apply jseqb_eq; reflexivity. Qed.

Lemma jseqb_neq (a b : jsstring) : JsString.eqb a b = false <-> a <> b.
Proof.
  split.
  - intros H E. apply jseqb_eq in E. congruence.
  - intros H. destruct (JsString.eqb a b) eqn:E; [|reflexivity].
    apply jseqb_eq in E. contradiction.
Qed.

Lemma trimStart_spec (s : jsstring) :
  exists a,
    s = a ++ trimStart s
    /\ Forall (fun c => isWhiteSpace c = true) a
    /\ (forall c t, trimStart s = c :: t -> isWhiteSpace c = false).
Proof.
  induction s as [|c s (a & E & Ha & Hh)]; simpl.
  - exists []. repeat split; [constructor | discriminate].
  - destruct (isWhiteSpace c) eqn:W.
    + exists (c :: a). simpl. rewrite <- E.
      repeat split; [constructor; assumption | exact Hh].
    + exists []. repeat split; [constructor|].
      intros c' t H. injection H as <- _. exact W.
Qed.

(** [trim] removes a run of white space at each end and nothing else. *)
Lemma trim_spec (s : jsstring) :
  exists a b,
    s = a ++ trim s ++ b
    /\ Forall (fun c => isWhiteSpace c = true) a
    /\ Forall (fun c => isWhiteSpace c = true) b
    /\ (forall c t, trim s = c :: t -> isWhiteSpace c = false)
    /\ (forall t c, trim s = t ++ [c] -> isWhiteSpace c = false).
Proof.
  destruct (trimStart_spec s) as (a & Ea & Ha & Hh).
  destruct (trimStart_spec (rev (trimStart s))) as (b' & Eb & Hb & Hl).
  unfold trim, trimEnd.
  set (u := trimStart s) in *. set (m := trimStart (rev u)) in *.
  assert (Eu : u = rev m ++ rev b').
  { rewrite <- rev_app_distr, <- Eb, rev_involutive. reflexivity. }
  exists a, (rev b'). repeat split.
  - rewrite <- Eu. exact Ea.
  - exact Ha.
  - apply Forall_rev. exact Hb.
  - intros c t H. apply (Hh c (t ++ rev b')). rewrite Eu, H. reflexivity.
  - intros t c H. apply (Hl c (rev t)).
    rewrite <- (rev_involutive m), H, rev_app_distr. reflexivity.
Qed.

(** ** Patterns: the derivative matcher decides the language *)

Lemma nullable_lang (r : regex) : nullable r = true <-> lang r [].
Proof.
  induction r; simpl.
  - split; [discriminate | inversion 1].
  - split; [constructor | reflexivity].
  - split; [discriminate | inversion 1].
  - rewrite andb_true_iff, IHr1, IHr2. split.
    + intros [H1 H2]. change (@nil char16) with (@nil char16 ++ []).
      constructor; assumption.
    + intros H. inversion H as [| |? ? u v Hu Hv E| | | |]; subst.
      destruct u; [|discriminate]. destruct v; [|discriminate]. auto.
  - rewrite orb_true_iff, IHr1, IHr2. split.
    + intros [H|H]; [apply L_AltL | apply L_AltR]; assumption.
    + intros H; inversion H; subst; auto.
  - split; [constructor | reflexivity].
Qed.

Lemma lang_cat_inv (r1 r2 : regex) (s : jsstring) :
  lang (Cat r1 r2) s <-> exists u v, s = u ++ v /\ lang r1 u /\ lang r2 v.
Proof.
  split.
  - intros H; inversion H; subst; eauto.
  - intros (u & v & -> & Hu & Hv); constructor; assumption.
Qed.

Lemma deriv_sound (c : char16) (r : regex) :
  forall s, lang (deriv c r) s -> lang r (c :: s).
Proof.
  induction r; simpl; intros s H.
  - inversion H.
  - inversion H.
  - destruct (p c) eqn:E; inversion H; subst. constructor; assumption.
  - destruct (nullable r1) eqn:N.
    + inversion H as [| | |? ? ? HL|? ? ? HR| |]; subst.
      * inversion HL; subst.
        change (c :: u ++ v) with ((c :: u) ++ v). constructor; auto.
      * apply nullable_lang in N.
        change (c :: s) with ([] ++ c :: s). constructor; auto.
    + inversion H; subst.
      change (c :: u ++ v) with ((c :: u) ++ v). constructor; auto.
  - inversion H; subst; [apply L_AltL | apply L_AltR]; auto.
  - inversion H; subst.
    change (c :: u ++ v) with ((c :: u) ++ v). constructor; auto.
Qed.

Lemma deriv_complete (c : char16) (r : regex) (w : jsstring) :
  lang r w -> forall s, w = c :: s -> lang (deriv c r) s.
Proof.
  induction 1 as [|p c' Hp|r1 r2 u v Hu IHu Hv IHv|r1 r2 u Hu IHu
                  |r1 r2 u Hu IHu|r|r u v Hu IHu Hv IHv];
    intros s E; simpl.
  - discriminate.
  - injection E as -> <-. rewrite Hp. constructor.
  - destruct u as [|x u].
    + simpl in E. subst v.
      assert (N : nullable r1 = true) by (apply nullable_lang; assumption).
      rewrite N. apply L_AltR. apply IHv; reflexivity.
    + simpl in E. injection E as -> <-.
      assert (L : lang (Cat (deriv c r1) r2) (u ++ v))
        by (constructor; [apply IHu; reflexivity | assumption]).
      destruct (nullable r1); [apply L_AltL|]; exact L.
  - apply L_AltL; auto.
  - apply L_AltR; auto.
  - discriminate.
  - destruct u as [|x u].
    + simpl in E. apply (IHv s E).
    + simpl in E. injection E as -> <-.
      constructor; [apply IHu; reflexivity | assumption].
Qed.

Lemma matches_lang (s : jsstring) :
  forall r, matches r s = true <-> lang r s.
Proof.
  induction s as [|c s IH]; intros r; simpl.
  - apply nullable_lang.
  - rewrite IH. split.
    + apply deriv_sound.
    + intros H. eapply deriv_complete; [exact H | reflexivity].
Qed.

Lemma lang_class (p : char16 -> bool) (s : jsstring) :
  lang (Class p) s <-> exists c, s = [c] /\ p c = true.
Proof.
  split.
  - intros H; inversion H; subst; eauto.
  - intros (c & -> & H); constructor; assumption.
Qed.

Lemma lang_chr (c : char16) (s : jsstring) : lang (Chr c) s <-> s = [c].
Proof.
  unfold Chr. rewrite lang_class. split.
  - intros (x & -> & H). apply N.eqb_eq in H. subst; reflexivity.
  - intros ->. exists c. split; [reflexivity | apply N.eqb_refl].
Qed.

Lemma lang_star_class (p : char16 -> bool) (s : jsstring) :
  lang (Star (Class p)) s <-> Forall (fun c => p c = true) s.
Proof.
  split.
  - intros H. remember (Star (Class p)) as r eqn:R.
    induction H as [| | | | | |r u v Hu _ Hv IHv]; try discriminate.
    + constructor.
    + injection R as ->. apply Forall_app. split; [|apply IHv; reflexivity].
      apply lang_class in Hu. destruct Hu as (c & -> & Hc).
      constructor; [assumption | constructor].
  - induction 1 as [|c s Hc _ IH].
    + constructor.
    + change (c :: s) with ([c] ++ s).
      constructor; [constructor|]; assumption.
Qed.

Lemma lang_plus_class (p : char16 -> bool) (s : jsstring) :
  lang (Plus (Class p)) s <-> s <> [] /\ Forall (fun c => p c = true) s.
Proof.
  unfold Plus. rewrite lang_cat_inv. split.
  - intros (u & v & -> & Hu & Hv).
    apply lang_class in Hu. destruct Hu as (c & -> & Hc).
    apply lang_star_class in Hv. split; [discriminate|].
    constructor; assumption.
  - intros [Hn Hall]. destruct s as [|c s]; [contradiction|].
    inversion Hall; subst. exists [c], s. split; [reflexivity|]. split.
    + constructor; assumption.
    + apply lang_star_class; assumption.
Qed.

Lemma not_space_at_plain (c : char16) : not_space_at c = true <-> plain c.
Proof.
  unfold not_space_at, plain.
  rewrite negb_true_iff, orb_false_iff, N.eqb_neq. tauto.
Qed.

Lemma Forall_not_space_at (s : jsstring) :
  Forall (fun c => not_space_at c = true) s <-> Forall plain s.
Proof.
  split; intros H; eapply Forall_impl; try exact H;
    intros c Hc; apply not_space_at_plain; assumption.
Qed.

(** The script's e-mail pattern accepts exactly the strings of the shape
    [local@domain.tld]. *)
Lemma email_re_shape (s : jsstring) :
  test_anchored email_re s = true <-> local_at_domain_tld s.
Proof.
  unfold test_anchored, email_re, local_at_domain_tld.
  rewrite matches_lang. split.
  - intros H.
    apply lang_cat_inv in H. destruct H as (l & s1 & -> & Hl & H).
    apply lang_cat_inv in H. destruct H as (a & s2 & -> & Ha & H).
    apply lang_cat_inv in H. destruct H as (d & s3 & -> & Hd & H).
    apply lang_cat_inv in H. destruct H as (b & t & -> & Hb & Ht).
    apply lang_chr in Ha, Hb. subst a b.
    apply lang_plus_class in Hl, Hd, Ht.
    destruct Hl as [? Hl], Hd as [? Hd], Ht as [? Ht].
    apply Forall_not_space_at in Hl, Hd, Ht.
    exists l, d, t. repeat split; assumption.
  - intros (l & d & t & -> & ? & ? & ? & Hl & Hd & Ht).
    apply Forall_not_space_at in Hl, Hd, Ht.
    repeat (constructor; try (apply lang_chr; reflexivity));
      apply lang_plus_class; split; assumption.
Qed.

(** ** Client-side validation *)

(** The four checks of [validate], as the script computes them. *)
Lemma validate_errors (f : form_state) :
  errors (validate f) =
    (if (List.length (trim (name_value f)) <? 2)%nat
     then [(lit "name", lit "Please enter your full name.")] else [])
    ++ (if negb (test_anchored email_re (trim (email_value f)))
        then [(lit "email", lit "Please enter a valid email.")] else [])
    ++ (if (List.length (trim (message_value f)) <? 10)%nat
        then [(lit "message", lit "Please provide a few more details.")]
        else [])
    ++ (if negb (consent_checked f)
        then [(lit "consent", lit "You must consent to be contacted.")]
        else []).
Proof.
  unfold validate; simpl.
  destruct (List.length (trim (name_value f)) <? 2)%nat,
           (negb (test_anchored email_re (trim (email_value f)))),
           (List.length (trim (message_value f)) <? 10)%nat,
           (negb (consent_checked f)); reflexivity.
Qed.

Lemma validate_ok (f : form_state) :
  ok (validate f) = true <-> errors (validate f) = [].
Proof.
  unfold validate; simpl.
  destruct (List.length (trim (name_value f)) <? 2)%nat,
           (negb (test_anchored email_re (trim (email_value f)))),
           (List.length (trim (message_value f)) <? 10)%nat,
           (negb (consent_checked f)); simpl; split; congruence.
Qed.

(** C1. For every form state, [validate] flags exactly the failing fields:
    [name] iff its trimmed length is below 2, [email] iff its trimmed value
    is not of the shape [local@domain.tld], [message] iff its trimmed length
    is below 10, [consent] iff the box is unchecked; each flag depends on
    its own field only, no other key is ever set, and the result is [ok]
    iff no field is flagged. *)
Theorem validate_flags_exactly_the_failing_fields (f : form_state) :
  let flagged k := In (lit k) (keys (errors (validate f))) in
  (flagged "name"%string <-> (List.length (trim (name_value f)) < 2)%nat)
  /\ (flagged "email"%string <-> ~ local_at_domain_tld (trim (email_value f)))
  /\ (flagged "message"%string
      <-> (List.length (trim (message_value f)) < 10)%nat)
  /\ (flagged "consent"%string <-> consent_checked f = false)
  /\ (forall k, In k (keys (errors (validate f))) -> In k field_keys)
  /\ (ok (validate f) = true <-> forall k, ~ In k (keys (errors (validate f)))).
Proof.
  intros flagged; subst flagged; cbv beta.
  rewrite validate_ok, validate_errors.
  rewrite <- Nat.ltb_lt, <- (Nat.ltb_lt _ 10).
  assert (E : ~ local_at_domain_tld (trim (email_value f))
              <-> negb (test_anchored email_re (trim (email_value f))) = true).
  { rewrite <- email_re_shape, negb_true_iff. apply not_true_iff_false. }
  rewrite E.
  assert (C : consent_checked f = false <-> negb (consent_checked f) = true)
    by (rewrite negb_true_iff; tauto).
  rewrite C.
  destruct (List.length (trim (name_value f)) <? 2)%nat,
           (negb (test_anchored email_re (trim (email_value f)))),
           (List.length (trim (message_value f)) <? 10)%nat,
           (negb (consent_checked f)); simpl;
    repeat split; intros; try discriminate; try tauto; try congruence;
    repeat match goal with
           | H : _ \/ _ |- _ => destruct H
           | H : lit _ = lit _ |- _ => discriminate H
           | H : False |- _ => contradiction
           | H : forall k, ~ _ |- _ => exfalso; eapply H; left; reflexivity
           | |- _ = _ => reflexivity
           end; auto.
Qed.

(** ** Runs of the listeners *)

Lemma step_run (a : action) (f : document -> document) (w : world) :
  step a f w = (Return tt, put w (f (doc w)) [(a, f (doc w))]).
Proof. reflexivity. Qed.

Lemma put_put (w : world) d l d' l' :
  put (put w d l) d' l' = put w d' (l ++ l').
Proof. unfold put; simpl. rewrite app_assoc. reflexivity. Qed.

Lemma put_doc (w : world) d l : doc (put w d l) = d.
Proof. reflexivity. Qed.

Lemma lead_form_showAlert t v c d :
  lead_form (showAlert_dom t v c d) = lead_form d.
Proof.
  unfold showAlert_dom. destruct (JsString.eqb t (lit "success")); reflexivity.
Qed.

(** Every run of [postJSON] arms the timer, issues the one request and
    clears the timer, once or (on the way out through the handler) twice;
    it leaves the document alone. *)
Lemma postJSON_run (E : env) (url : jsstring) (payload : value)
    (t : option Z) (w : world) :
  let T := match t with Some x => x | None => default_timeoutMs end in
  exists r k,
    postJSON E url payload t w =
      (r, put w (doc w)
            ([(A_setTimeout T, doc w);
              (A_fetch url (post_init E payload), doc w)]
             ++ repeat (A_clearTimeout, doc w) k))
    /\ (k = 1 \/ k = 2)%nat
    /\ (r = Pending -> k = 1%nat).
Proof.
  intros T. unfold postJSON. fold T.
  unfold bind, try_catch, fetch, bind, res_json, res_text, throw, ret, pending.
  rewrite !step_run. cbn [fst snd].
  destruct (network E url (post_init E payload)) as [ms r|ms e|].
  - destruct (setTimeout_delay T <=? ms)%Z.
    + rewrite !step_run, !put_put. eexists; exists 1%nat.
      split; [reflexivity|]. split; auto.
    + rewrite !step_run, !put_put.
      destruct (isJson r); destruct (Browser.body r) as [txt|e|];
        try destruct (JSON_parse E txt);
        destruct (negb (res_ok r));
        try destruct (new_Error _);
        rewrite ?step_run, ?put_put, ?put_doc;
        (eexists;
         first [ exists 1%nat; split; [reflexivity|]; split; [auto|auto]
               | exists 2%nat; split; [reflexivity|];
                 split; [auto|discriminate] ]).
  - destruct (setTimeout_delay T <=? ms)%Z; rewrite !step_run, !put_put;
      (eexists; exists 1%nat; split; [reflexivity|]; split; auto).
  - rewrite !step_run, !put_put;
      (eexists; exists 1%nat; split; [reflexivity|]; split; auto).
Qed.
Lemma on_submit_eq (E : env) (w : world) :
  let f := lead_form (doc w) in
  let v := validate f in
  let d1 := showAlert_dom (lit "success") false None (doc w) in
  let d2 := showAlert_dom (lit "error") false None d1 in
  let d3 := showErrors_dom (errors v) d2 in
  let pre := [(A_preventDefault, doc w);
              (A_showAlert (lit "success") false None, d1);
              (A_showAlert (lit "error") false None, d2);
              (A_showErrors (errors v), d3)] in
  let d4 := setLoading_dom true d3 in
  let url := template_API_BASE_URL (API_BASE_URL w) ++ lit "/lead" in
  on_submit E w =
    if ok v then
      match postJSON E url (buildPayload E f) None
              (put w d4 (pre ++ [(A_setLoading true, d4)])) with
      | (Return resp, w') =>
          let d5 := showAlert_dom (lit "success") true None (doc w') in
          let d6 := formReset_dom d5 in
          let d7 := setLoading_dom false d6 in
          (Return tt,
           put w' d7
             [(A_consoleInfo (lit "Lead submitted:") resp, doc w');
              (A_showAlert (lit "success") true None, d5);
              (A_formReset, d6);
              (A_setLoading false, d7)])
      | (Throw e, w') =>
          let d5 :=
            showAlert_dom (lit "error") true (Some went_wrong_text) (doc w') in
          let d6 := setLoading_dom false d5 in
          (Return tt,
           put w' d6
             [(A_consoleError (lit "Submit failed:") e, doc w');
              (A_showAlert (lit "error") true (Some went_wrong_text), d5);
              (A_setLoading false, d6)])
      | (Pending, w') => (Pending, w')
      end
    else (Return tt, put w d3 pre).
Proof.
  intros f v d1 d2 d3 pre d4 url.
  cbv [on_submit showAlert showErrors setLoading get_doc get_API_BASE_URL
       bind step try_finally try_catch ret].
  cbn [doc API_BASE_URL listening log fst snd].
  rewrite !lead_form_showAlert.
  fold f; fold v; fold d1; fold d2; fold d3.
  destruct (ok v) eqn:Hok; cbn [negb].
  - cbn [doc API_BASE_URL listening log fst snd].
    assert (Hf : lead_form (setLoading_dom true d3) = f).
    { unfold d3, d2, d1.
      cbn [lead_form setLoading_dom showErrors_dom with_submit_btn
           with_error_slots].
      rewrite !lead_form_showAlert; reflexivity. }
    rewrite Hf. fold d4; fold url.
    unfold put. cbn [doc API_BASE_URL listening log].
    replace (log w ++ pre ++ [(A_setLoading true, d4)])
      with (((((log w ++ [(A_preventDefault, doc w)]) ++
           [(A_showAlert (lit "success") false None, d1)]) ++
          [(A_showAlert (lit "error") false None, d2)]) ++
         [(A_showErrors (errors v), d3)]) ++
        [(A_setLoading true, d4)])
      by (subst pre; rewrite <- !app_assoc; reflexivity).
    match goal with
    | |- context [postJSON ?E ?u ?b ?t ?w0] =>
        destruct (postJSON E u b t w0) as [[resp|e|] w']
    end; cbv zeta; cbn [doc API_BASE_URL listening log];
      do 2 f_equal; rewrite <- !app_assoc; reflexivity.
  - unfold put. cbn [doc API_BASE_URL listening log]. do 2 f_equal.
    subst pre. rewrite <- !app_assoc. reflexivity.
Qed.

Lemma on_submit_run (E : env) (w : world) :
  let f := lead_form (doc w) in
  let v := validate f in
  let d1 := showAlert_dom (lit "success") false None (doc w) in
  let d2 := showAlert_dom (lit "error") false None d1 in
  let d3 := showErrors_dom (errors v) d2 in
  let pre := [(A_preventDefault, doc w);
              (A_showAlert (lit "success") false None, d1);
              (A_showAlert (lit "error") false None, d2);
              (A_showErrors (errors v), d3)] in
  let d4 := setLoading_dom true d3 in
  let url := template_API_BASE_URL (API_BASE_URL w) ++ lit "/lead" in
  let init := post_init E (buildPayload E f) in
  (ok v = false /\ on_submit E w = (Return tt, put w d3 pre))
  \/ (ok v = true /\
      exists k, (k = 1 \/ k = 2)%nat /\
      let net := [(A_setLoading true, d4); (A_setTimeout default_timeoutMs, d4);
                  (A_fetch url init, d4)]
                 ++ repeat (A_clearTimeout, d4) k in
      (exists resp,
          let d5 := showAlert_dom (lit "success") true None d4 in
          let d6 := formReset_dom d5 in
          let d7 := setLoading_dom false d6 in
          on_submit E w =
            (Return tt,
             put w d7
               (pre ++ net
                ++ [(A_consoleInfo (lit "Lead submitted:") resp, d4);
                    (A_showAlert (lit "success") true None, d5);
                    (A_formReset, d6);
                    (A_setLoading false, d7)])))
      \/ (exists e,
          let d5 := showAlert_dom (lit "error") true (Some went_wrong_text) d4 in
          let d6 := setLoading_dom false d5 in
          on_submit E w =
            (Return tt,
             put w d6
               (pre ++ net
                ++ [(A_consoleError (lit "Submit failed:") e, d4);
                    (A_showAlert (lit "error") true (Some went_wrong_text), d5);
                    (A_setLoading false, d6)])))
      \/ (k = 1%nat /\ on_submit E w = (Pending, put w d4 (pre ++ net)))).
Proof.
  intros f v d1 d2 d3 pre d4 url init.
  rewrite on_submit_eq. fold f; fold v; fold d1; fold d2; fold d3; fold pre; fold d4; fold url.
  destruct (ok v); [right | left; split; reflexivity].
  split; [reflexivity|].
  destruct (postJSON_run E url (buildPayload E f) None
              (put w d4 (pre ++ [(A_setLoading true, d4)])))
    as (r & k & Hrun & Hk & Hp).
  rewrite Hrun. rewrite !put_put, !put_doc. cbn [doc] in *.
  exists k. split; [exact Hk|]. fold init. cbv zeta.
  destruct r as [resp|e|].
  - left. exists resp. rewrite !put_put, <- !app_assoc. reflexivity.
  - right; left. exists e. rewrite !put_put, <- !app_assoc. reflexivity.
  - right; right. split; [auto|]. rewrite <- ?app_assoc. reflexivity.
Qed.
(** ** Objects *)

Lemma get_set_same {V} (o : object V) (k : jsstring) (v : V) :
  get_prop (set_prop o k v) k = Some v.
Proof.
  induction o as [|[k' v'] o IH]; simpl.
  - rewrite jseqb_refl; reflexivity.
  - destruct (JsString.eqb k' k) eqn:E; simpl; rewrite E; auto.
Qed.

Lemma get_set_other {V} (o : object V) (k k' : jsstring) (v : V) :
  k <> k' -> get_prop (set_prop o k v) k' = get_prop o k'.
Proof.
  intros N. induction o as [|[k0 v0] o IH]; simpl.
  - apply jseqb_neq in N. rewrite N; reflexivity.
  - destruct (JsString.eqb k0 k) eqn:E; simpl.
    + apply jseqb_eq in E; subst k0.
      apply jseqb_neq in N. rewrite N; reflexivity.
    + destruct (JsString.eqb k0 k'); auto.
Qed.

(** The slots after [showErrors]: a slot of one of the four fields shows the
    field's message or nothing, every other slot is untouched. *)
Lemma showErrors_slots (errs : object jsstring) (ks : list jsstring) :
  forall (slots : object jsstring) (k : jsstring),
    get_prop
      (fold_left
         (fun slots k =>
            match get_prop slots k with
            | Some _ => set_prop slots k (error_text errs k)
            | None => slots
            end) ks slots) k
    = if existsb (JsString.eqb k) ks
      then match get_prop slots k with
           | Some _ => Some (error_text errs k)
           | None => None
           end
      else get_prop slots k.
Proof.
  induction ks as [|k0 ks IH]; intros slots k; simpl; [reflexivity|].
  rewrite IH. destruct (JsString.eqb k k0) eqn:E.
  - apply jseqb_eq in E; subst k0. simpl.
    destruct (get_prop slots k) eqn:G.
    + rewrite get_set_same. destruct (existsb _ ks); reflexivity.
    + rewrite G. destruct (existsb _ ks); reflexivity.
  - simpl. apply jseqb_neq in E.
    destruct (get_prop slots k0) eqn:G; [|reflexivity].
    rewrite get_set_other by congruence. reflexivity.
Qed.

Lemma validate_not_ok (f : form_state) :
  ok (validate f) = false
  <-> ((List.length (trim (name_value f)) < 2)%nat
       \/ ~ local_at_domain_tld (trim (email_value f))
       \/ (List.length (trim (message_value f)) < 10)%nat
       \/ consent_checked f = false).
Proof.
  rewrite <- not_true_iff_false, validate_ok, validate_errors.
  rewrite <- Nat.ltb_lt, <- (Nat.ltb_lt _ 10), <- email_re_shape.
  destruct (List.length (trim (name_value f)) <? 2)%nat,
           (test_anchored email_re (trim (email_value f))),
           (List.length (trim (message_value f)) <? 10)%nat,
           (consent_checked f); simpl; split.
  all: try (intros H;
            first [ left; reflexivity
                  | right; left; intros D; discriminate D
                  | right; right; left; reflexivity
                  | right; right; right; reflexivity
                  | exfalso; apply H; reflexivity ]).
  all: intros H D; try discriminate D.
  destruct H as [H|[H|[H|H]]]; try discriminate H. apply H; reflexivity.
Qed.

(** C2. For every form that fails any of the four rules, the submit
    listener clears the banners, shows the field errors in the slots the
    page has, and returns: its whole run is the four recorded steps, none of
    which enters the loading state or issues a request, so the button is
    untouched and nothing can reach the store. *)
Theorem invalid_form_is_shown_not_sent (E : env) (w : world) :
  let f := lead_form (doc w) in
  let v := validate f in
  let d1 := showAlert_dom (lit "success") false None (doc w) in
  let d2 := showAlert_dom (lit "error") false None d1 in
  let d3 := showErrors_dom (errors v) d2 in
  ((List.length (trim (name_value f)) < 2)%nat
   \/ ~ local_at_domain_tld (trim (email_value f))
   \/ (List.length (trim (message_value f)) < 10)%nat
   \/ consent_checked f = false) ->
  on_submit E w =
    (Return tt,
     put w d3
       [(A_preventDefault, doc w);
        (A_showAlert (lit "success") false None, d1);
        (A_showAlert (lit "error") false None, d2);
        (A_showErrors (errors v), d3)])
  /\ (forall k old,
        In k field_keys -> get_prop (error_slots (doc w)) k = Some old ->
        get_prop (error_slots d3) k = Some (error_text (errors v) k))
  /\ submit_btn d3 = submit_btn (doc w)
  /\ filter (fun e => is_fetch (fst e) || is_setLoading (fst e))
       (log (snd (on_submit E w)))
     = filter (fun e => is_fetch (fst e) || is_setLoading (fst e)) (log w).
Proof.
  intros f v d1 d2 d3 H.
  apply validate_not_ok in H. fold f in H. fold v in H.
  pose proof (on_submit_eq E w) as Eq. cbv zeta in Eq.
  fold f in Eq. fold v in Eq. rewrite H in Eq. fold d1 d2 d3 in Eq.
  split; [exact Eq|]. split; [|split].
  - intros k old Hk Hold. unfold d3, showErrors_dom. cbn [error_slots with_error_slots].
    rewrite showErrors_slots.
    assert (S2 : error_slots d2 = error_slots (doc w)).
    { unfold d2, d1, showAlert_dom. reflexivity. }
    rewrite S2, Hold.
    replace (existsb (JsString.eqb k) field_keys) with true; [reflexivity|].
    symmetry. apply existsb_exists. exists k. split; [exact Hk|apply jseqb_refl].
  - reflexivity.
  - rewrite Eq. cbn [snd]. unfold put. cbn [log].
    rewrite filter_app. cbn. apply app_nil_r.
Qed.

Lemma submit_btn_showAlert t v c d :
  submit_btn (showAlert_dom t v c d) = submit_btn d.
Proof.
  unfold showAlert_dom. destruct (JsString.eqb t (lit "success")); reflexivity.
Qed.

(** The default delay is what [setTimeout] works with as it is. *)
Lemma default_delay : setTimeout_delay default_timeoutMs = default_timeoutMs.
Proof. reflexivity. Qed.

(** [postJSON] stays pending only when the response arrived in time and its
    body never does; a request that got no answer by the deadline is aborted
    and throws. *)
Lemma postJSON_pending (E : env) (url : jsstring) (payload : value)
    (t : option Z) (w : world) :
  let T := match t with Some x => x | None => default_timeoutMs end in
  fst (postJSON E url payload t w) = Pending
  <-> exists ms res,
        network E url (post_init E payload) = Resolves ms res
        /\ (ms < setTimeout_delay T)%Z /\ Browser.body res = BodyStalls.
Proof.
  intros T. unfold postJSON. fold T.
  unfold bind, try_catch, fetch, bind, res_json, res_text, throw, ret, pending.
  rewrite !step_run. cbn [fst snd].
  destruct (network E url (post_init E payload)) as [ms r|ms e|] eqn:N.
  - destruct (setTimeout_delay T <=? ms)%Z eqn:L.
    + rewrite !step_run. cbn [fst]. split; [discriminate|].
      intros (ms' & res' & H1 & H2 & _). injection H1 as <- <-.
      apply Z.leb_le in L. lia.
    + apply Z.leb_gt in L. rewrite !step_run.
      destruct (isJson r); destruct (Browser.body r) as [txt|e|] eqn:B;
        try destruct (JSON_parse E txt);
        destruct (negb (res_ok r));
        try destruct (new_Error _);
        rewrite ?step_run; cbn [fst];
        (split;
         [ first [ discriminate | intros _; exists ms, r; auto ]
         | first [ reflexivity
                 | intros (ms' & res' & H1 & _ & H3);
                   injection H1 as <- <-; congruence ] ]).
  - destruct (setTimeout_delay T <=? ms)%Z; rewrite !step_run; cbn [fst];
      (split; [discriminate | intros (? & ? & H1 & _); discriminate H1]).
  - rewrite !step_run; cbn [fst];
      (split; [discriminate | intros (? & ? & H1 & _); discriminate H1]).
Qed.

Lemma on_submit_pending (E : env) (w : world) :
  let f := lead_form (doc w) in
  let url := template_API_BASE_URL (API_BASE_URL w) ++ lit "/lead" in
  ok (validate f) = true ->
  (fst (on_submit E w) = Pending
   <-> exists ms res,
         network E url (post_init E (buildPayload E f)) = Resolves ms res
         /\ (ms < default_timeoutMs)%Z /\ Browser.body res = BodyStalls).
Proof.
  intros f url Hok. rewrite <- default_delay.
  rewrite <- (postJSON_pending E url (buildPayload E f) None
                (put w (setLoading_dom true
                          (showErrors_dom (errors (validate f))
                             (showAlert_dom (lit "error") false None
                                (showAlert_dom (lit "success") false None
                                   (doc w)))))
                   ([(A_preventDefault, doc w);
                     (A_showAlert (lit "success") false None,
                      showAlert_dom (lit "success") false None (doc w));
                     (A_showAlert (lit "error") false None,
                      showAlert_dom (lit "error") false None
                        (showAlert_dom (lit "success") false None (doc w)));
                     (A_showErrors (errors (validate f)),
                      showErrors_dom (errors (validate f))
                        (showAlert_dom (lit "error") false None
                           (showAlert_dom (lit "success") false None
                              (doc w))))]
                    ++ [(A_setLoading true,
                         setLoading_dom true
                           (showErrors_dom (errors (validate f))
                              (showAlert_dom (lit "error") false None
                                 (showAlert_dom (lit "success") false None
                                    (doc w)))))]))).
  rewrite on_submit_eq. fold f. rewrite Hok. fold url.
  match goal with
  | |- context [postJSON ?E ?u ?b ?t ?w0] =>
      destruct (postJSON E u b t w0) as [[resp|e|] w']
  end; cbn [fst]; split; intros H; try discriminate H; reflexivity.
Qed.

(** The log of a valid submission: the step that disables the control and
    marks it loading comes right before the timer and the one request. *)
Lemma valid_submit_log (E : env) (w : world) :
  let f := lead_form (doc w) in
  let url := template_API_BASE_URL (API_BASE_URL w) ++ lit "/lead" in
  let init := post_init E (buildPayload E f) in
  ok (validate f) = true ->
  exists before after d,
    log (snd (on_submit E w))
    = log w ++ before
        ++ (A_setLoading true, d) :: (A_setTimeout default_timeoutMs, d)
           :: (A_fetch url init, d) :: after
    /\ submit_btn d = {| disabled := true; class_loading := true |}
    /\ (forall e, In e (before ++ after) -> is_fetch (fst e) = false).
Proof.
  intros f url init Hok.
  destruct (on_submit_run E w) as [[Hno _]|[_ (k & Hk & H)]];
    [fold f in Hno; congruence|].
  cbv zeta in H. fold f url init in H.
  match type of H with
  | context [(A_setLoading true, ?x)] => set (d4 := x) in *
  end.
  match type of H with
  | context [(A_preventDefault, ?a) :: ?rest] =>
      set (pre := (A_preventDefault, a) :: rest) in *
  end.
  assert (Hpre : forall e, In e pre -> is_fetch (fst e) = false).
  { intros e He. subst pre. simpl in He.
    repeat destruct He as [<-|He]; try reflexivity. contradiction. }
  assert (Hrep : forall e, In e (repeat (A_clearTimeout, d4) k) ->
                      is_fetch (fst e) = false).
  { intros e He. apply repeat_spec in He. subst e. reflexivity. }
  destruct H as [(resp & H)|[(e & H)|(_ & H)]]; rewrite H; cbn [snd];
    unfold put; cbn [log];
    (exists pre; eexists; exists d4; split;
     [ rewrite <- ?app_assoc; cbn [app]; reflexivity
     | split; [reflexivity|]; intros x Hx;
       repeat (apply in_app_or in Hx; destruct Hx as [Hx|Hx]; auto);
       simpl in Hx; repeat destruct Hx as [<-|Hx]; try reflexivity;
       contradiction ]).
Qed.

(** C7. For every submission that passes validation, the step that disables
    the control and marks it loading comes before the one request of the
    run; the run stays pending only while a response that arrived in time
    never delivers its body; and on every other path (success, thrown error,
    timeout) the listener returns normally with the control enabled and
    unmarked. *)
Theorem submit_control_is_released (E : env) (w : world) :
  let f := lead_form (doc w) in
  let url := template_API_BASE_URL (API_BASE_URL w) ++ lit "/lead" in
  let init := post_init E (buildPayload E f) in
  ok (validate f) = true ->
  (exists before after d,
      log (snd (on_submit E w))
      = log w ++ before
          ++ (A_setLoading true, d) :: (A_setTimeout default_timeoutMs, d)
             :: (A_fetch url init, d) :: after
      /\ submit_btn d = {| disabled := true; class_loading := true |}
      /\ (forall e, In e (before ++ after) -> is_fetch (fst e) = false))
  /\ (fst (on_submit E w) = Pending
      <-> exists ms res,
            network E url init = Resolves ms res
            /\ (ms < default_timeoutMs)%Z /\ Browser.body res = BodyStalls)
  /\ (fst (on_submit E w) <> Pending ->
      fst (on_submit E w) = Return tt
      /\ submit_btn (doc (snd (on_submit E w)))
         = {| disabled := false; class_loading := false |}).
Proof.
  intros f url init Hok.
  split; [apply valid_submit_log; exact Hok|].
  split; [apply on_submit_pending; exact Hok|].
  destruct (on_submit_run E w) as [[Hno _]|[_ (k & Hk & H)]];
    [fold f in Hno; congruence|].
  cbv zeta in H.
  destruct H as [(resp & H)|[(e & H)|(_ & H)]]; rewrite H; cbn [fst snd];
    intros NP; try (exfalso; apply NP; reflexivity);
    (split; reflexivity).
Qed.

(** ** The payload *)

Lemma get_prop_None_keys {V} (o : object V) (k : jsstring) :
  get_prop o k = None <-> ~ In k (keys o).
Proof.
  induction o as [|[k0 v0] o IH]; simpl.
  - tauto.
  - destruct (JsString.eqb k0 k) eqn:E.
    + apply jseqb_eq in E. split; [discriminate | intros H; exfalso; auto].
    + apply jseqb_neq in E. rewrite IH. tauto.
Qed.







(** ** Timestamps *)




(** The calendar arithmetic at known instants. *)
Lemma toISOString_epoch :
  toISOString 0 = lit "1970-01-01T00:00:00.000Z".
Proof. reflexivity. Qed.

Lemma toISOString_leap_day :
  toISOString 1709251199999 = lit "2024-02-29T23:59:59.999Z".
Proof. reflexivity. Qed.

Lemma toISOString_before_epoch :
  toISOString (-1) = lit "1969-12-31T23:59:59.999Z".
Proof. reflexivity. Qed.

Lemma toISOString_last_four_digit_year :
  toISOString 253402300799999 = lit "9999-12-31T23:59:59.999Z"
  /\ toISOString 253402300800000 = lit "+010000-01-01T00:00:00.000Z".
Proof. split; reflexivity. Qed.


(** ** Invariants of runs *)

Section Keeps.
Variable I : world -> Prop.

Lemma keeps_ret {A} (a : A) : keeps I (ret a).
Proof. intros w H; exact H. Qed.

Lemma keeps_throw {A} (e : error) : keeps I (@throw A e).
Proof. intros w H; exact H. Qed.

Lemma keeps_pending {A} : keeps I (@pending A).
Proof. intros w H; exact H. Qed.

Lemma keeps_get_doc : keeps I get_doc.
Proof. intros w H; exact H. Qed.

Lemma keeps_get_API_BASE_URL : keeps I get_API_BASE_URL.
Proof. intros w H; exact H. Qed.

Lemma keeps_bind {A B} (m : M A) (k : A -> M B) :
  keeps I m -> (forall a, keeps I (k a)) -> keeps I (bind m k).
Proof.
  intros Hm Hk w H. unfold bind. specialize (Hm w H).
  destruct (m w) as [[a|e|] w']; simpl in *; auto. apply Hk; assumption.
Qed.

Lemma keeps_try_catch {A} (m : M A) (h : error -> M A) :
  keeps I m -> (forall e, keeps I (h e)) -> keeps I (try_catch m h).
Proof.
  intros Hm Hh w H. unfold try_catch. specialize (Hm w H).
  destruct (m w) as [[a|e|] w']; simpl in *; auto. apply Hh; assumption.
Qed.

Lemma keeps_try_finally {A} (m : M A) (f : M unit) :
  keeps I m -> keeps I f -> keeps I (try_finally m f).
Proof.
  intros Hm Hf w H. unfold try_finally. specialize (Hm w H).
  destruct (m w) as [[a|e|] w']; simpl in *; auto;
    specialize (Hf w' Hm); destruct (f w') as [[[]|e'|] w'']; simpl in *; auto.
Qed.

End Keeps.

Lemma banner_step (a : action) (f : document -> document) :
  (forall d, at_most_one_banner d = true -> at_most_one_banner (f d) = true) ->
  keeps banner_inv (step a f).
Proof.
  intros Hf w [Hd Hl]. unfold step, banner_inv; simpl. split; [auto|].
  apply Forall_app. split; [assumption|]. constructor; [simpl; auto|constructor].
Qed.

Lemma banner_showAlert t v c d : at_most_one_banner (showAlert_dom t v c d) = true.
Proof.
  unfold showAlert_dom, at_most_one_banner, visible.
  destruct (JsString.eqb t (lit "success")); simpl;
    rewrite ?andb_false_r; reflexivity.
Qed.

Lemma banner_set_API_BASE_URL u : keeps banner_inv (set_API_BASE_URL u).
Proof.
  intros w [Hd Hl]. unfold set_API_BASE_URL, banner_inv; simpl. split; [auto|].
  apply Forall_app. split; [assumption|]. constructor; [simpl; auto|constructor].
Qed.

Lemma banner_add_listeners : keeps banner_inv add_listeners.
Proof.
  intros w [Hd Hl]. unfold add_listeners, banner_inv; simpl. split; [auto|].
  apply Forall_app. split; [assumption|]. constructor; [simpl; auto|constructor].
Qed.

Ltac keeps_banner known :=
  repeat first
    [ known
    | apply keeps_ret | apply keeps_throw | apply keeps_pending
    | apply keeps_get_doc | apply keeps_get_API_BASE_URL
    | apply banner_set_API_BASE_URL | apply banner_add_listeners
    | apply banner_step; intros ? ?; first [ apply banner_showAlert | assumption ]
    | apply keeps_bind; [|intros ?]
    | apply keeps_try_catch; [|intros ?]
    | apply keeps_try_finally
    | match goal with
      | |- keeps _ (if ?b then _ else _) => destruct b
      | |- keeps _ (match ?x with _ => _ end) => destruct x
      end ].

Lemma banner_fetch E url init t : keeps banner_inv (fetch E url init t).
Proof. unfold fetch. keeps_banner fail. Qed.

Lemma banner_res_json E res : keeps banner_inv (res_json E res).
Proof. unfold res_json. keeps_banner fail. Qed.

Lemma banner_res_text res : keeps banner_inv (res_text res).
Proof. unfold res_text. keeps_banner fail. Qed.

Lemma banner_lift_read E r : keeps banner_inv (lift_read E r).
Proof. unfold lift_read. keeps_banner fail. Qed.

Lemma banner_loadConfig E : keeps banner_inv (loadConfig E).
Proof.
  unfold loadConfig.
  keeps_banner ltac:(first [ apply banner_fetch | apply banner_res_json
                           | apply banner_lift_read ]).
Qed.

Lemma banner_postJSON E url p t : keeps banner_inv (postJSON E url p t).
Proof.
  unfold postJSON.
  keeps_banner ltac:(first [ apply banner_fetch | apply banner_res_json
                           | apply banner_res_text ]).
Qed.

Lemma banner_on_submit E : keeps banner_inv (on_submit E).
Proof.
  unfold on_submit, showAlert, showErrors, setLoading.
  keeps_banner ltac:(apply banner_postJSON).
Qed.

Lemma banner_on_reset_click : keeps banner_inv on_reset_click.
Proof. unfold on_reset_click, showAlert, showErrors. keeps_banner fail. Qed.

Lemma banner_on_DOMContentLoaded E : keeps banner_inv (on_DOMContentLoaded E).
Proof.
  unfold on_DOMContentLoaded, initYear, showAlert.
  keeps_banner ltac:(apply banner_loadConfig).
Qed.

Lemma banner_lifecycle E0 d0 evs :
  at_most_one_banner d0 = true -> banner_inv (lifecycle E0 d0 evs).
Proof.
  intros H0. unfold lifecycle.
  assert (B : banner_inv (snd (on_DOMContentLoaded E0 (initial_world d0)))).
  { apply banner_on_DOMContentLoaded. split; [exact H0|constructor]. }
  revert B. generalize (snd (on_DOMContentLoaded E0 (initial_world d0))).
  induction evs as [|[E ev] evs IH]; intros w B; cbn [fold_left]; [exact B|].
  apply IH. unfold dispatch; cbn [fst snd]. destruct ev.
  - destruct (listening w); [apply banner_on_submit|]; assumption.
  - destruct (listening w); [apply banner_on_reset_click|]; assumption.
  - apply (banner_step (A_userInput f) (fun d => with_form d f));
      [|assumption]. intros d Hd; exact Hd.
Qed.

(** ** Requests of a submission *)

(** What a submit run adds to the world: further log entries, whose only
    request is the POST of the payload to the configured base. *)
Lemma on_submit_world (E : env) (w : world) :
  exists d l,
    snd (on_submit E w) = put w d l
    /\ forall url init d',
         In (A_fetch url init, d') l ->
         url = template_API_BASE_URL (API_BASE_URL w) ++ lit "/lead"
         /\ init = post_init E (buildPayload E (lead_form (doc w))).
Proof.
  destruct (on_submit_run E w) as [[_ H]|[_ (k & Hk & H)]].
  - rewrite H. eexists; eexists. split; [reflexivity|].
    intros url init d' Hin. simpl in Hin.
    repeat destruct Hin as [Hin|Hin]; try discriminate Hin. contradiction.
  - cbv zeta in H.
    assert (R : forall (x : nat) (d : document) url init (d' : document),
               In (A_fetch url init, d') (repeat (A_clearTimeout, d) x) -> False).
    { intros x d url init d' Hin. apply repeat_spec in Hin. discriminate Hin. }
    destruct H as [(resp & H)|[(e & H)|(_ & H)]]; rewrite H;
      (eexists; eexists; split; [reflexivity|]);
      intros url init d' Hin;
      repeat (apply in_app_or in Hin; destruct Hin as [Hin|Hin]);
      try (exfalso; eapply R; exact Hin);
      simpl in Hin;
      repeat (destruct Hin as [Hin|Hin];
              [ first [ discriminate Hin
                      | injection Hin as <- <- <-; split; reflexivity ] | ]);
      try contradiction.
Qed.


(** The value [postJSON] hands to [new Error] on a status that is not a
    success: the body's truthy [message] field, else the status text, else
    the fixed text. *)
Lemma error_argument (p : value) (res : response) :
  let arg := if ToBoolean (errMsg_of p res) then errMsg_of p res
             else VString (lit "Request failed") in
  (forall m, read_prop_opt p (lit "message") = Some m ->
             ToBoolean m = true -> arg = m)
  /\ ((forall m, read_prop_opt p (lit "message") = Some m ->
                 ToBoolean m = false) ->
      arg = VString (if JsString.truthy (statusText res) then statusText res
                     else lit "Request failed")).
Proof.
  cbv zeta. unfold errMsg_of. split.
  - intros m Hm Tm. destruct p; try discriminate Hm.
    cbn [typeof]. rewrite Hm, Tm, Tm. reflexivity.
  - intros Hno.
    assert (X : match typeof p, read_prop_opt p (lit "message") with
                | T_object, Some m =>
                    if ToBoolean m then m else VString (statusText res)
                | _, _ => VString (statusText res)
                end = VString (statusText res)).
    { destruct (typeof p); try reflexivity.
      destruct (read_prop_opt p (lit "message")) as [m|] eqn:Hm;
        [|reflexivity].
      rewrite (Hno m eq_refl). reflexivity. }
    rewrite X. cbn [ToBoolean].
    destruct (JsString.truthy (statusText res)); reflexivity.
Qed.

(** What [postJSON] does with a response that arrived before the timer's
    delay ran out and whose body reads as [p]. *)
Lemma postJSON_in_time (E : env) (url : jsstring) (payload : value)
    (t : option Z) (w : world) (ms : Z) (res : response) (p : value) :
  let T := match t with Some x => x | None => default_timeoutMs end in
  network E url (post_init E payload) = Resolves ms res ->
  (ms < setTimeout_delay T)%Z ->
  parsed_body E res = Some p ->
  fst (postJSON E url payload t w)
  = if res_ok res then Return p
    else match new_Error (if ToBoolean (errMsg_of p res) then errMsg_of p res
                          else VString (lit "Request failed")) with
         | Some err => Throw err
         | None => Throw (engine_error E NotPrimitive)
         end.
Proof.
  intros T N L P.
  unfold postJSON. fold T.
  unfold bind, try_catch, fetch, bind, throw, ret.
  rewrite !step_run. cbn [fst snd]. rewrite N.
  apply Z.ltb_lt in L. rewrite Z.ltb_antisym in L.
  apply negb_true_iff in L. rewrite L.
  rewrite !step_run.
  assert (R : (if isJson res then res_json E res else res_text res)
              = ret p).
  { unfold parsed_body in P. unfold res_json, res_text.
    destruct (Browser.body res); try discriminate P.
    destruct (isJson res); [rewrite P; reflexivity|].
    injection P as <-. reflexivity. }
  rewrite R. unfold ret.
  destruct (res_ok res); cbn [negb fst]; [reflexivity|].
  destruct (new_Error _); rewrite step_run; reflexivity.
Qed.

(** C6, amended. For every response [postJSON] receives before the timer's
    effective delay runs out and whose body is read (as JSON when the content
    type contains [application/json], as text otherwise): on a success status
    the parsed body is returned; on any other status an error is thrown.
    When the body is an object with a truthy [message] field, it is an
    [Error] whose message is the string form of that field, or the engine's
    [TypeError] when the field has no string form; otherwise it is an
    [Error] whose message is the status text when that is non-empty, and
    the fixed text [Request failed] when it is empty. *)
Theorem postJSON_reads_body_and_reports_failure
    (E : env) (url : jsstring) (payload : value) (t : option Z) (w : world)
    (ms : Z) (res : response) (p : value) :
  let T := match t with Some x => x | None => default_timeoutMs end in
  network E url (post_init E payload) = Resolves ms res ->
  (ms < setTimeout_delay T)%Z ->
  parsed_body E res = Some p ->
  (res_ok res = true -> fst (postJSON E url payload t w) = Return p)
  /\ (res_ok res = false ->
      exists e,
        fst (postJSON E url payload t w) = Throw e
        /\ (forall m, read_prop_opt p (lit "message") = Some m ->
                      ToBoolean m = true ->
                      match ToString m with
                      | Some text =>
                          e = {| err_name := lit "Error";
                                 err_message := text |}
                      | None =>
                          e = engine_error E NotPrimitive
                          /\ err_name e = lit "TypeError"
                      end)
        /\ ((forall m, read_prop_opt p (lit "message") = Some m ->
                       ToBoolean m = false) ->
            e = {| err_name := lit "Error";
                   err_message :=
                     if JsString.truthy (statusText res) then statusText res
                     else lit "Request failed" |})).
Proof.
  intros T N L P.
  rewrite (postJSON_in_time E url payload t w ms res p N L P).
  split; intros Hok; rewrite Hok; [reflexivity|].
  destruct (error_argument p res) as [A1 A2]. cbv zeta in A1, A2.
  unfold new_Error.
  destruct (ToString _) as [text|] eqn:TS; eexists;
    (split; [reflexivity|]); split.
  - intros m Hm Tm. rewrite (A1 m Hm Tm) in TS. rewrite TS. reflexivity.
  - intros Hno. rewrite (A2 Hno) in TS. cbn [ToString] in TS.
    injection TS as <-. reflexivity.
  - intros m Hm Tm. rewrite (A1 m Hm Tm) in TS. rewrite TS.
    split; reflexivity.
  - intros Hno. rewrite (A2 Hno) in TS. discriminate TS.
Qed.

(** ** Configuration *)

Lemma loadConfig_unusable (E : env) (w : world) :
  config_unusable E ->
  loadConfig E w
  = (Return tt, put w (doc w) [(A_fetch config_url config_init, doc w)]).
Proof.
  intros H. unfold loadConfig, bind, try_catch, fetch, bind, res_json,
    lift_read, throw, ret.
  rewrite step_run. cbn [fst snd].
  destruct H as [ms e N|ms res N K|ms res e N K B|ms res t N K B P
                 |ms res t cfg N K B P S]; rewrite N; try rewrite K;
    cbn [negb]; try rewrite B; try rewrite P; try reflexivity.
  destruct cfg as [|b|n|s|items|fields]; try reflexivity.
  cbn [read_prop].
  destruct (get_prop fields (lit "API_BASE_URL")) as [[|b|n|s|items|fs]|] eqn:G;
    try reflexivity.
  rewrite (S s) by (cbn [read_prop]; rewrite G; reflexivity).
  reflexivity.
Qed.

Lemma loadConfig_names (E : env) (w : world) (s : jsstring) :
  config_names E s -> trim s <> [] ->
  loadConfig E w
  = (Return tt,
     {| doc := doc w;
        API_BASE_URL := Some (replace_trailing_solidus (trim s));
        listening := listening w;
        log := log w
               ++ [(A_fetch config_url config_init, doc w);
                   (A_setApiBase (replace_trailing_solidus (trim s)), doc w)] |}).
Proof.
  intros (ms & res & t & cfg & N & K & B & P & R) T.
  unfold loadConfig, bind, try_catch, fetch, bind, res_json,
    lift_read, throw, ret.
  rewrite step_run. cbn [fst snd]. rewrite N, K. cbn [negb].
  rewrite B, P, R.
  destruct (trim s) as [|c r] eqn:Ts; [contradiction|].
  cbn [JsString.truthy]. unfold set_API_BASE_URL, put.
  cbn [doc API_BASE_URL listening log]. rewrite <- app_assoc. reflexivity.
Qed.

Lemma fetch_urls_app l1 l2 : fetch_urls (l1 ++ l2) = fetch_urls l1 ++ fetch_urls l2.
Proof. unfold fetch_urls. apply flat_map_app. Qed.

Lemma posts_app l1 l2 : posts (l1 ++ l2) = posts l1 ++ posts l2.
Proof. unfold posts. apply filter_app. Qed.

(** C9. If the configuration document is absent, malformed, or holds no
    non-empty string base URL, then at every later moment of the page the
    submit control is disabled, the failure banner shows the
    configuration-pending message, no listener is attached, and the only
    request ever issued is the one for the configuration: no POST. *)
Theorem unconfigured_form_is_disabled
    (E0 : env) (d0 : document) (evs : list (env * page_event)) :
  config_unusable E0 ->
  let w := lifecycle E0 d0 evs in
  disabled (submit_btn (doc w)) = true
  /\ hidden (failure (doc w)) = false
  /\ textContent (failure (doc w)) = not_configured_text
  /\ hidden (success (doc w)) = true
  /\ listening w = false
  /\ fetch_urls (log w) = [config_url]
  /\ posts (log w) = [].
Proof.
  intros H. unfold lifecycle.
  assert (B : let w := snd (on_DOMContentLoaded E0 (initial_world d0)) in
              disabled (submit_btn (doc w)) = true
              /\ hidden (failure (doc w)) = false
              /\ textContent (failure (doc w)) = not_configured_text
              /\ hidden (success (doc w)) = true
              /\ listening w = false
              /\ fetch_urls (log w) = [config_url]
              /\ posts (log w) = []).
  { unfold on_DOMContentLoaded, initYear, bind.
    rewrite step_run. rewrite loadConfig_unusable by exact H.
    cbn. repeat split; reflexivity. }
  revert B. generalize (snd (on_DOMContentLoaded E0 (initial_world d0))).
  induction evs as [|[E ev] evs IH]; intros w B; cbn [fold_left]; [exact B|].
  apply IH. cbv zeta in B. destruct B as (B1 & B2 & B3 & B4 & B5 & B6 & B7).
  unfold dispatch; cbn [fst snd]. destruct ev; rewrite ?B5.
  - repeat split; assumption.
  - repeat split; assumption.
  - cbv zeta. rewrite step_run. cbn [snd]. unfold put.
    cbn [doc log listening API_BASE_URL].
    rewrite fetch_urls_app, posts_app, B6, B7.
    repeat split; assumption.
Qed.

(** [replace(/\/$/, "")] removes one final solidus, or nothing when the
    string does not end in one. *)
Lemma replace_trailing_solidus_spec (s : jsstring) :
  s = replace_trailing_solidus s ++ [solidus]
  \/ (replace_trailing_solidus s = s /\ forall x, s <> x ++ [solidus]).
Proof.
  induction s as [|c t IH].
  - right. split; [reflexivity|]. intros x H. destruct x; discriminate H.
  - destruct t as [|c' t'].
    + simpl. destruct (N.eqb c solidus) eqn:E.
      * apply N.eqb_eq in E. subst c. left; reflexivity.
      * apply N.eqb_neq in E. right. split; [reflexivity|].
        intros [|y [|z x]] H; simpl in H; try discriminate H.
        injection H as H. contradiction.
    + change (replace_trailing_solidus (c :: c' :: t'))
        with (c :: replace_trailing_solidus (c' :: t')).
      destruct IH as [IH|[IH Hn]].
      * left. simpl. f_equal. exact IH.
      * right. rewrite IH. split; [reflexivity|].
        intros [|y x] H; simpl in H; [discriminate H|].
        injection H as _ H. apply (Hn x). exact H.
Qed.

Lemma on_reset_click_world (w : world) :
  exists d l,
    snd (on_reset_click w) = put w d l
    /\ forall url init d', ~ In (A_fetch url init, d') l.
Proof.
  unfold on_reset_click, showErrors, showAlert, bind.
  rewrite !step_run, !put_put. cbn [snd].
  eexists; eexists. split; [reflexivity|].
  intros url init d' Hin. simpl in Hin.
  repeat destruct Hin as [Hin|Hin]; try discriminate Hin. contradiction.
Qed.

(** Log entries that are no requests hold no POST. *)
Lemma posts_no_fetch (l : list (action * document)) :
  (forall e, In e l -> is_fetch (fst e) = false) -> posts l = [].
Proof.
  induction l as [|[a d] l IH]; intros H; [reflexivity|].
  unfold posts in *. cbn [filter fst].
  assert (Ha : is_fetch a = false) by (apply (H (a, d)); left; reflexivity).
  destruct a; try discriminate Ha;
    cbn [is_post]; apply IH; intros x Hx; apply H; right; exact Hx.
Qed.

(** What a submission adds to the POSTs of a page with listeners: one
    request to the configured base followed by [/lead] when the form passes
    validation, nothing when it does not. *)
Lemma submit_posts (E : env) (w : world) :
  let url := template_API_BASE_URL (API_BASE_URL w) ++ lit "/lead" in
  let l := log (snd (on_submit E w)) in
  (ok (validate (lead_form (doc w))) = true ->
   fetch_urls (posts l) = fetch_urls (posts (log w)) ++ [url])
  /\ (ok (validate (lead_form (doc w))) = false ->
      posts l = posts (log w)).
Proof.
  intros url l. subst l. split; intros Hok.
  - destruct (valid_submit_log E w Hok) as (before & after & d & -> & _ & Hn).
    fold url.
    rewrite !posts_app.
    rewrite (posts_no_fetch before)
      by (intros e He; apply Hn; apply in_or_app; left; exact He).
    change (posts ((A_setLoading true, d) :: (A_setTimeout default_timeoutMs, d)
                   :: (A_fetch url
                         (post_init E (buildPayload E (lead_form (doc w)))), d)
                   :: after))
      with ((A_fetch url (post_init E (buildPayload E (lead_form (doc w)))), d)
            :: posts after).
    rewrite (posts_no_fetch after)
      by (intros e He; apply Hn; apply in_or_app; right; exact He).
    rewrite fetch_urls_app. reflexivity.
  - destruct (on_submit_run E w) as [[_ H]|[Hyes _]]; [|congruence].
    rewrite H. unfold put; cbn [snd log]. rewrite posts_app.
    cbn. apply app_nil_r.
Qed.

(** C10, amended. For every configured base URL string that is not blank,
    the client stores it trimmed with one final solidus removed when there
    is one, and keeps that value for the life of the page.  When the stored
    base is not empty the listeners are attached, every POST of the page
    goes to exactly that base followed by [/lead], a submission that passes
    validation makes one such POST and one that fails validation makes
    none.  When the stored base is empty (the configured value trims to a
    lone solidus) no listener is attached and the page makes no POST.  Only
    one final solidus is removed: the request URL has two solidi where the
    base meets [/lead] exactly when the trimmed configured value ends in
    two; solidi elsewhere in the configured value stay as configured. *)
Theorem configured_base_is_normalised
    (E0 : env) (d0 : document) (evs : list (env * page_event))
    (s : jsstring) :
  config_names E0 s -> trim s <> [] ->
  let b := replace_trailing_solidus (trim s) in
  let w := lifecycle E0 d0 evs in
  API_BASE_URL w = Some b
  /\ (trim s = b ++ [solidus]
      \/ (b = trim s /\ forall x, trim s <> x ++ [solidus]))
  /\ (forall url init d,
        In (A_fetch url init, d) (log w) ->
        init_method init = Some (lit "POST") ->
        url = b ++ lit "/lead")
  /\ (b <> [] ->
      listening w = true
      /\ forall E : env,
           let w' := dispatch w (E, Ev_submit) in
           (ok (validate (lead_form (doc w))) = true ->
            fetch_urls (posts (log w'))
            = fetch_urls (posts (log w)) ++ [b ++ lit "/lead"])
           /\ (ok (validate (lead_form (doc w))) = false ->
               posts (log w') = posts (log w)))
  /\ (b = [] -> listening w = false /\ posts (log w) = [])
  /\ ((exists x, b ++ lit "/lead" = x ++ lit "//lead")
      <-> exists x, trim s = x ++ [solidus; solidus]).
Proof.
  intros Hc Ht b w.
  assert (Inv : API_BASE_URL w = Some b
                /\ listening w = JsString.truthy b
                /\ (forall url init d,
                      In (A_fetch url init, d) (log w) ->
                      init_method init = Some (lit "POST") ->
                      url = b ++ lit "/lead")
                /\ (JsString.truthy b = false -> posts (log w) = [])).
  { subst w. unfold lifecycle.
    assert (B : let w := snd (on_DOMContentLoaded E0 (initial_world d0)) in
                API_BASE_URL w = Some b
                /\ listening w = JsString.truthy b
                /\ (forall url init d,
                      In (A_fetch url init, d) (log w) ->
                      init_method init = Some (lit "POST") ->
                      url = b ++ lit "/lead")
                /\ (JsString.truthy b = false -> posts (log w) = [])).
    { unfold on_DOMContentLoaded, initYear, bind.
      rewrite step_run. rewrite (@loadConfig_names E0 _ s Hc Ht). fold b.
      unfold get_API_BASE_URL. cbn [API_BASE_URL].
      unfold not_configured.
      destruct (JsString.truthy b) eqn:Tb; cbn [negb];
        unfold showAlert, add_listeners; rewrite ?step_run; cbn;
        (split; [reflexivity|]); (split; [reflexivity|]);
        (split; [|first [reflexivity | discriminate]]);
        intros url init d Hin Hm;
        repeat (destruct Hin as [Hin|Hin];
                [ first [ discriminate Hin
                        | injection Hin as <- <- <-; discriminate Hm ] | ]);
        contradiction. }
    revert B. generalize (snd (on_DOMContentLoaded E0 (initial_world d0))).
    induction evs as [|[E ev] evs IH]; intros w B; cbn [fold_left]; [exact B|].
    apply IH. cbv zeta in B. destruct B as (B1 & B0 & B2 & B3).
    unfold dispatch; cbn [fst snd]. destruct ev.
    - destruct (listening w) eqn:Lw;
        [|split; [|split; [|split]]; first [assumption | congruence]].
      destruct (on_submit_world E w) as (d & l & -> & Hl).
      unfold put; cbn [API_BASE_URL listening log].
      split; [assumption|]. split; [congruence|]. split.
      + intros url init d' Hin Hm. apply in_app_or in Hin.
        destruct Hin as [Hin|Hin]; [eapply B2; eassumption|].
        apply Hl in Hin. destruct Hin as [-> _]. rewrite B1. reflexivity.
      + intros Tb. congruence.
    - destruct (listening w) eqn:Lw;
        [|split; [|split; [|split]]; first [assumption | congruence]].
      destruct (on_reset_click_world w) as (d & l & -> & Hl).
      unfold put; cbn [API_BASE_URL listening log].
      split; [assumption|]. split; [congruence|]. split.
      + intros url init d' Hin Hm. apply in_app_or in Hin.
        destruct Hin as [Hin|Hin]; [eapply B2; eassumption|].
        exfalso. eapply Hl; eassumption.
      + intros Tb. congruence.
    - cbv zeta. rewrite step_run. cbn [snd]. unfold put.
      cbn [API_BASE_URL listening log].
      split; [assumption|]. split; [congruence|]. split.
      + intros url init d' Hin Hm. apply in_app_or in Hin.
        destruct Hin as [Hin|Hin]; [eapply B2; eassumption|].
        simpl in Hin. destruct Hin as [Hin|[]]. discriminate Hin.
      + intros Tb. rewrite posts_app, (B3 Tb). reflexivity. }
  destruct Inv as (I1 & I0 & I2 & I3). split; [exact I1|].
  split; [|split; [exact I2|split; [|split]]].
  - destruct (replace_trailing_solidus_spec (trim s)) as [H|[H Hn]].
    + left. exact H.
    + right. split; assumption.
  - intros Hb.
    assert (Lw : listening w = true).
    { rewrite I0. destruct b; [contradiction|reflexivity]. }
    split; [exact Lw|].
    intros E. unfold dispatch. cbn [fst snd]. rewrite Lw.
    destruct (submit_posts E w) as [S1 S2]. cbv zeta in S1, S2.
    rewrite I1 in S1. cbn [template_API_BASE_URL] in S1.
    split; assumption.
  - intros Hb. rewrite I0, Hb. split; [reflexivity|].
    apply I3. rewrite Hb. reflexivity.
  - change (lit "//lead") with ([solidus] ++ lit "/lead").
    split.
    + intros (x & Hx). rewrite app_assoc in Hx. apply app_inv_tail in Hx.
      destruct (replace_trailing_solidus_spec (trim s)) as [H|[H Hn]];
        fold b in H.
      * exists x. rewrite H, Hx, <- app_assoc. reflexivity.
      * exfalso. apply (Hn x). rewrite <- H. exact Hx.
    + intros (x & Hx). exists x. rewrite app_assoc. f_equal.
      destruct (replace_trailing_solidus_spec (trim s)) as [H|[H Hn]];
        fold b in H.
      * rewrite Hx in H.
        change [solidus; solidus] with ([solidus] ++ [solidus]) in H.
        rewrite app_assoc in H. apply app_inv_tail in H.
        symmetry. exact H.
      * exfalso. apply (Hn (x ++ [solidus])). rewrite Hx, <- app_assoc.
        reflexivity.
Qed.

(** ** Banners *)

(** C8, amended. On a page that starts with at most one banner showing, at
    most one of the success and failure banners shows at every recorded step
    of the page's life; and every submission first hides both banners, before
    the validation whose errors it then shows. *)
Theorem at_most_one_banner_is_visible
    (E0 : env) (d0 : document) (evs : list (env * page_event)) :
  at_most_one_banner d0 = true ->
  (let w := lifecycle E0 d0 evs in
   at_most_one_banner (doc w) = true
   /\ Forall (fun e => at_most_one_banner (snd e) = true) (log w))
  /\ (forall (E : env) (w : world),
        let d1 := showAlert_dom (lit "success") false None (doc w) in
        let d2 := showAlert_dom (lit "error") false None d1 in
        let v := validate (lead_form d2) in
        exists rest,
          log (snd (on_submit E w))
          = log w
              ++ [(A_preventDefault, doc w);
                  (A_showAlert (lit "success") false None, d1);
                  (A_showAlert (lit "error") false None, d2);
                  (A_showErrors (errors v), showErrors_dom (errors v) d2)]
              ++ rest
          /\ hidden (success d2) = true /\ hidden (failure d2) = true).
Proof.
  intros H0. split; [exact (banner_lifecycle E0 d0 evs H0)|].
  intros E w d1 d2 v.
  assert (V : v = validate (lead_form (doc w))).
  { unfold v, d2, d1. rewrite !lead_form_showAlert. reflexivity. }
  rewrite V.
  destruct (on_submit_run E w) as [[_ H]|[_ (k & Hk & H)]].
  - rewrite H. exists []. unfold put; cbn [snd log].
    split; [rewrite app_nil_r; reflexivity | split; reflexivity].
  - cbv zeta in H.
    destruct H as [(resp & H)|[(e & H)|(_ & H)]]; rewrite H;
      unfold put; cbn [snd log];
      (eexists; split; [reflexivity | split; reflexivity]).
Qed.

(** ** The lead-intake handler *)

Import LeadHandler.

(** C3. The handler's status does not depend on how the notification sends
    end: two invocations that agree on the store write answer with the same
    status; a failed store write on a valid request gives a 5xx with no send
    attempted and nothing persisted; a successful one gives a 2xx with the
    identifier, whatever the sends do; an invalid request gives a 4xx with
    no effect at all. *)
Theorem status_ignores_notification
    (cfg : config) (I I' : invocation) (body : option value) :
  store_accepts I' = store_accepts I ->
  statusCode (fst (handler cfg I' body)) = statusCode (fst (handler cfg I body))
  /\ (forall d, server_validate body = Some d -> store_accepts I = false ->
        (500 <= statusCode (fst (handler cfg I body)) <= 599)%Z
        /\ filter is_send (snd (handler cfg I body)) = []
        /\ persisted I (snd (handler cfg I body)) = [])
  /\ (forall d, server_validate body = Some d -> store_accepts I = true ->
        (200 <= statusCode (fst (handler cfg I body)) <= 299)%Z
        /\ get_prop (reply_body (fst (handler cfg I body))) (lit "id")
           = Some (VString (fresh_id I))
        /\ exists r, persisted I (snd (handler cfg I body)) = [r]
                     /\ id r = fresh_id I)
  /\ (server_validate body = None ->
        (400 <= statusCode (fst (handler cfg I body)) <= 499)%Z
        /\ snd (handler cfg I body) = []).
Proof.
  intros Hst. unfold handler, persisted.
  rewrite Hst. destruct (server_validate body) as [d|].
  - destruct (store_accepts I); cbn [fst snd statusCode].
    + split; [reflexivity|]. split; [intros ? _ D; discriminate D|].
      split; [|intros D; discriminate D].
      intros d' _ _. split; [lia|]. split; [reflexivity|].
      unfold notify. cbn [flat_map app id].
      destruct (confirmation_sent I), (alert_sent I); cbn;
        (eexists; split; reflexivity).
    + split; [reflexivity|]. split; [|split; [intros ? _ D; discriminate D|
                                                intros D; discriminate D]].
      intros d' _ _. split; [lia|]. split; reflexivity.
  - cbn [fst snd statusCode]. split; [reflexivity|].
    split; [intros ? D; discriminate D|].
    split; [intros ? D; discriminate D|].
    intros _. split; [lia|reflexivity].
Qed.

(** C5. For every successful submission, the persisted record carries the
    server time as its submission timestamp; with a retention window of [n]
    days configured its expiry is that timestamp plus [n] days, strictly
    later for a positive window; without one it has no expiry. *)
Theorem expiry_is_submission_plus_window
    (cfg : config) (I : invocation) (body : option value) (r : lead_record) :
  (200 <= statusCode (fst (handler cfg I body)) <= 299)%Z ->
  In r (persisted I (snd (handler cfg I body))) ->
  submittedAt r = now I
  /\ match TTL_DAYS cfg with
     | Some n =>
         expiresAt r = Some (submittedAt r + n * seconds_per_day)%Z
         /\ ((0 < n)%Z ->
             forall x, expiresAt r = Some x -> (submittedAt r < x)%Z)
     | None => expiresAt r = None
     end.
Proof.
  unfold handler, persisted.
  destruct (server_validate body) as [d|]; cbn [fst snd statusCode].
  - destruct (store_accepts I); cbn [fst snd statusCode]; [|intros; lia].
    intros _ Hin. unfold notify in Hin. cbn [flat_map app] in Hin.
    assert (R : r = {| id := fresh_id I; name := d_name d; email := d_email d;
                       message := d_message d;
                       utm := match body with
                              | Some b => read_prop_opt b (lit "utm")
                              | None => None end;
                       userAgent := match body with
                                    | Some b => read_prop_opt b (lit "userAgent")
                                    | None => None end;
                       referer := match body with
                                  | Some b => read_prop_opt b (lit "referer")
                                  | None => None end;
                       submittedAt := now I;
                       expiresAt := expiry cfg (now I) |}).
    { destruct (confirmation_sent I), (alert_sent I); cbn in Hin;
        destruct Hin as [Hin|[]]; symmetry; exact Hin. }
    subst r. cbn [submittedAt expiresAt]. split; [reflexivity|].
    unfold expiry. destruct (TTL_DAYS cfg) as [n|]; [|reflexivity].
    split; [reflexivity|]. intros Hn x Hx. injection Hx as <-.
    unfold seconds_per_day. lia.
  - intros; lia.
Qed.

(** ** The theorems at concrete pages *)

(** C2 at a deployed page with a too-short name. *)
Lemma invalid_form_witness :
  let E := Examples.deployed Examples.base in
  let w := Examples.ready Examples.base Examples.hasty_form in
  (List.length (trim (name_value (lead_form (doc w)))) < 2)%nat
  /\ fst (on_submit E w) = Return tt
  /\ fetch_urls (log (snd (on_submit E w))) = [].
Proof.
  intros E w.
  assert (H : (List.length (trim (name_value (lead_form (doc w)))) < 2)%nat)
    by (vm_compute; lia).
  split; [exact H|].
  destruct (invalid_form_is_shown_not_sent E w (or_introl H)) as (Eq & _).
  rewrite Eq. split; reflexivity.
Defined.


(** C6 at an endpoint that refuses with a JSON message. *)
Lemma refusal_message_witness :
  let E := Examples.rejecting Examples.base in
  let w := Examples.ready Examples.base Examples.jane_form in
  let url := Examples.base ++ lit "/lead" in
  exists e,
    fst (postJSON E url Examples.jane_body None w) = Throw e
    /\ err_message e = lit "Invalid request".
Proof.
  intros E w url.
  destruct (postJSON_reads_body_and_reports_failure E url Examples.jane_body
              None w 120%Z
              (Examples.json_response 400 (lit "Bad Request")
                 Examples.refusal_text)
              Examples.refusal_doc
              eq_refl eq_refl eq_refl) as [_ H].
  destruct (H eq_refl) as (e & He & Hm & _).
  exists e. split; [exact He|].
  rewrite (Hm (VString (lit "Invalid request")) eq_refl eq_refl).
  reflexivity.
Defined.

(** C7 at a deployed page with a complete form. *)
Lemma released_witness :
  let E := Examples.deployed Examples.base in
  let w := Examples.ready Examples.base Examples.jane_form in
  ok (validate (lead_form (doc w))) = true
  /\ fst (on_submit E w) = Return tt
  /\ submit_btn (doc (snd (on_submit E w)))
     = {| disabled := false; class_loading := false |}.
Proof.
  intros E w.
  assert (H : ok (validate (lead_form (doc w))) = true) by reflexivity.
  split; [exact H|].
  destruct (submit_control_is_released E w H) as (_ & _ & H3).
  apply H3. vm_compute. discriminate.
Defined.

(** C8 over a submission followed by a reset. *)
Lemma banner_witness :
  let E := Examples.deployed Examples.base in
  let d0 := Examples.page Examples.jane_form in
  let evs := [(E, Ev_submit); (E, Ev_reset_click)] in
  at_most_one_banner d0 = true
  /\ Forall (fun e => at_most_one_banner (snd e) = true)
       (log (lifecycle E d0 evs)).
Proof.
  intros E d0 evs.
  assert (H : at_most_one_banner d0 = true) by reflexivity.
  split; [exact H|].
  exact (proj2 (proj1 (at_most_one_banner_is_visible E d0 evs H))).
Defined.

(** C9 at a deployment whose configuration request answers 404. *)
Lemma unconfigured_witness :
  let E := Examples.unconfigured in
  let d0 := Examples.page Examples.blank_form in
  let evs := [(E, Ev_user_input Examples.jane_form); (E, Ev_submit)] in
  config_unusable E
  /\ disabled (submit_btn (doc (lifecycle E d0 evs))) = true
  /\ posts (log (lifecycle E d0 evs)) = [].
Proof.
  intros E d0 evs.
  assert (H : config_unusable E).
  { apply (@cu_absent E 20
             (Examples.text_response 404 (lit "Not Found") (lit "not found")));
      reflexivity. }
  split; [exact H|].
  destruct (unconfigured_form_is_disabled E d0 evs H)
    as (H1 & _ & _ & _ & _ & _ & H7).
  split; assumption.
Defined.

(** C10 at a base configured with blanks around and one final solidus. *)
Lemma normalised_witness :
  let s := lit " https://api.example.com/prod/ " in
  let E := Examples.deployed s in
  let d0 := Examples.page Examples.jane_form in
  let evs := [(E, Ev_submit)] in
  config_names E s
  /\ API_BASE_URL (lifecycle E d0 evs)
     = Some (lit "https://api.example.com/prod")
  /\ fetch_urls (posts (log (lifecycle E d0 evs)))
     = [lit "https://api.example.com/prod/lead"].
Proof.
  intros s E d0 evs.
  assert (H : config_names E s).
  { exists 20%Z,
      (Examples.json_response 200 (lit "OK") (Examples.config_text s)),
      (Examples.config_text s), (Examples.config_doc s).
    repeat split; reflexivity. }
  assert (T : trim s <> []) by (vm_compute; discriminate).
  split; [exact H|].
  destruct (configured_base_is_normalised E d0 evs s H T) as (H1 & _).
  split; [rewrite H1; reflexivity | reflexivity].
Defined.

(** C3 at an invocation whose store write and sends all fail. *)
Lemma notification_witness :
  let cfg := Examples.half_year in
  let I := Examples.quiet_mail false in
  let I' := Examples.quiet_mail false in
  LeadHandler.store_accepts I' = LeadHandler.store_accepts I
  /\ LeadHandler.statusCode
       (fst (LeadHandler.handler cfg I (Some Examples.jane_body))) = 500%Z
  /\ filter LeadHandler.is_send
       (snd (LeadHandler.handler cfg I (Some Examples.jane_body))) = [].
Proof.
  intros cfg I I'.
  assert (H : LeadHandler.store_accepts I' = LeadHandler.store_accepts I)
    by reflexivity.
  split; [exact H|].
  destruct (status_ignores_notification cfg I I' (Some Examples.jane_body) H)
    as (_ & Hf & _).
  destruct (Hf _ eq_refl eq_refl) as (_ & Hs & _).
  split; [reflexivity | exact Hs].
Defined.

(** C5 at a half-year retention window. *)
Lemma expiry_witness :
  let cfg := Examples.half_year in
  let I := Examples.quiet_mail true in
  exists r,
    In r (LeadHandler.persisted I
            (snd (LeadHandler.handler cfg I (Some Examples.jane_body))))
    /\ LeadHandler.submittedAt r = 1700000000%Z
    /\ LeadHandler.expiresAt r = Some 1715552000%Z.
Proof.
  intros cfg I. eexists.
  assert (Hin : In _ (LeadHandler.persisted I
            (snd (LeadHandler.handler cfg I (Some Examples.jane_body)))))
    by (left; reflexivity).
  split; [exact Hin|].
  assert (Hs : (200 <= LeadHandler.statusCode
                  (fst (LeadHandler.handler cfg I (Some Examples.jane_body)))
                <= 299)%Z) by (vm_compute; split; discriminate).
  destruct (expiry_is_submission_plus_window cfg I (Some Examples.jane_body)
              _ Hs Hin) as (H1 & H2 & _).
  split; [exact H1 | exact H2].
Defined.

(** ** Where the specification's wording fails *)

(** C6 as worded fails: a 500 without a reason phrase (HTTP/2) and with a
    text body makes [postJSON] throw [Request failed], which is neither a
    message field of the body nor the status text. *)
Lemma request_failed_counterexample :
  let E := Examples.failing Examples.base in
  let w := Examples.ready Examples.base Examples.jane_form in
  let url := Examples.base ++ lit "/lead" in
  let res :=
    Examples.text_response 500 [] (lit "upstream unavailable") in
  network E url (post_init E Examples.jane_body) = Resolves 120 res
  /\ res_ok res = false
  /\ parsed_body E res = Some (VString (lit "upstream unavailable"))
  /\ read_prop_opt (VString (lit "upstream unavailable")) (lit "message")
     = None
  /\ fst (postJSON E url Examples.jane_body None w)
     = Throw {| err_name := lit "Error";
                err_message := lit "Request failed" |}
  /\ JsString.eqb (lit "Request failed") (statusText res) = false.
Proof. vm_compute. repeat split. Qed.

(** C8 as worded fails: a new submission on a page that shows the failure
    banner hides both banners, so at that step no banner shows. *)
Lemma both_banners_hidden_counterexample :
  let E := Examples.deployed Examples.base in
  let w := Examples.retrying Examples.base Examples.jane_form in
  exactly_one_banner (doc w) = true
  /\ exists d,
       nth_error (log (snd (on_submit E w))) 2
       = Some (A_showAlert (lit "error") false None, d)
       /\ visible (success d) = false
       /\ visible (failure d) = false
       /\ exactly_one_banner d = false.
Proof.
  intros E w. split; [reflexivity|].
  eexists. split; [vm_compute; reflexivity|]. repeat split.
Qed.

(** C10 as worded fails: a base configured with two final solidi keeps one,
    and the request path gets a double solidus. *)
Lemma double_solidus_counterexample :
  let E := Examples.deployed Examples.slashed in
  let d0 := Examples.page Examples.jane_form in
  let w := lifecycle E d0 [(E, Ev_submit)] in
  Examples.slashed = lit "https://api.example.com/" ++ [solidus]
  /\ API_BASE_URL w = Some (lit "https://api.example.com/")
  /\ fetch_urls (posts (log w)) = [lit "https://api.example.com//lead"].
Proof. vm_compute. repeat split. Qed.


(** * Further properties of the script *)

(** ** Error slots *)

Lemma keys_set_prop_old {V} (o : object V) (k : jsstring) (v old : V) :
  get_prop o k = Some old -> keys (set_prop o k v) = keys o.
Proof.
  induction o as [|[k0 v0] o IH]; simpl; [discriminate|].
  destruct (JsString.eqb k0 k) eqn:E; simpl; [reflexivity|].
  intros H. f_equal. apply IH; exact H.
Qed.

Lemma showErrors_fold_keys (errs : object jsstring) (ks : list jsstring) :
  forall slots,
    keys (fold_left
            (fun slots k =>
               match get_prop slots k with
               | Some _ => set_prop slots k (error_text errs k)
               | None => slots
               end) ks slots)
    = keys slots.
Proof.
  induction ks as [|k ks IH]; intros slots; simpl; [reflexivity|].
  rewrite IH. destruct (get_prop slots k) eqn:G; [|reflexivity].
  eapply keys_set_prop_old; exact G.
Qed.

Lemma error_slots_showAlert t v c d :
  error_slots (showAlert_dom t v c d) = error_slots d.
Proof.
  unfold showAlert_dom. destruct (JsString.eqb t (lit "success")); reflexivity.
Qed.

Lemma in_field_keys (k : jsstring) :
  existsb (JsString.eqb k) field_keys = true <-> In k field_keys.
Proof.
  rewrite existsb_exists. split.
  - intros (x & Hx & E). apply jseqb_eq in E. subst x. exact Hx.
  - intros H. exists k. split; [exact H | apply jseqb_refl].
Qed.

Lemma showErrors_dom_slots
    (errs : object jsstring) (d : document) :
  keys (error_slots (showErrors_dom errs d)) = keys (error_slots d)
  /\ (forall k, ~ In k field_keys ->
        get_prop (error_slots (showErrors_dom errs d)) k
        = get_prop (error_slots d) k)
  /\ (forall k, In k field_keys ->
        get_prop (error_slots d) k = None ->
        get_prop (error_slots (showErrors_dom errs d)) k = None)
  /\ (forall k old, In k field_keys ->
        get_prop (error_slots d) k = Some old ->
        get_prop (error_slots (showErrors_dom errs d)) k
        = Some (match get_prop errs k with
                | Some t => t
                | None => []
                end)).
Proof.
  unfold showErrors_dom. cbn [error_slots with_error_slots].
  split; [apply showErrors_fold_keys|].
  split; [|split].
  - intros k Hk. rewrite showErrors_slots.
    destruct (existsb (JsString.eqb k) field_keys) eqn:X; [|reflexivity].
    apply in_field_keys in X. contradiction.
  - intros k Hk Hn. rewrite showErrors_slots, Hn.
    destruct (existsb (JsString.eqb k) field_keys); reflexivity.
  - intros k old Hk Ho. rewrite showErrors_slots, Ho.
    apply in_field_keys in Hk. rewrite Hk. unfold error_text.
    destruct (get_prop errs k) as [[|c t]|]; reflexivity.
Qed.

(** X2. [showErrors] writes only into the slots the page has for the four
    fields: it never adds or removes a slot, leaves every other slot's text
    alone, and gives each of the four that exists the field's message, or
    the empty string when the field has none. *)
Theorem showErrors_touches_only_field_slots
    (errs : object jsstring) (d : document) :
  keys (error_slots (showErrors_dom errs d)) = keys (error_slots d)
  /\ (forall k, ~ In k field_keys ->
        get_prop (error_slots (showErrors_dom errs d)) k
        = get_prop (error_slots d) k)
  /\ (forall k, In k field_keys ->
        get_prop (error_slots d) k = None ->
        get_prop (error_slots (showErrors_dom errs d)) k = None)
  /\ (forall k old, In k field_keys ->
        get_prop (error_slots d) k = Some old ->
        get_prop (error_slots (showErrors_dom errs d)) k
        = Some (match get_prop errs k with
                | Some t => t
                | None => []
                end)).
Proof. exact (showErrors_dom_slots errs d). Qed.

(** X1. A click on the reset button empties the four error slots the page
    has, hides both banners and does nothing else: it returns normally,
    issues no request, and leaves the field values, the banner texts and the
    submit button as they were. *)
Theorem reset_click_clears_feedback (w : world) :
  let w' := snd (on_reset_click w) in
  fst (on_reset_click w) = Return tt
  /\ hidden (success (doc w')) = true
  /\ hidden (failure (doc w')) = true
  /\ (forall k old, In k field_keys ->
        get_prop (error_slots (doc w)) k = Some old ->
        get_prop (error_slots (doc w')) k = Some [])
  /\ (forall k, ~ In k field_keys ->
        get_prop (error_slots (doc w')) k = get_prop (error_slots (doc w)) k)
  /\ lead_form (doc w') = lead_form (doc w)
  /\ submit_btn (doc w') = submit_btn (doc w)
  /\ textContent (success (doc w')) = textContent (success (doc w))
  /\ textContent (failure (doc w')) = textContent (failure (doc w))
  /\ fetch_urls (log w') = fetch_urls (log w)
  /\ API_BASE_URL w' = API_BASE_URL w.
Proof.
  unfold on_reset_click, showErrors, showAlert, bind.
  rewrite !step_run, !put_put. cbn [fst snd]. rewrite !put_doc.
  split; [reflexivity|]. split; [reflexivity|]. split; [reflexivity|].
  split; [|split].
  - intros k old Hk Ho. rewrite !error_slots_showAlert.
    destruct (showErrors_dom_slots [] (doc w))
      as (_ & _ & _ & H).
    rewrite (H k old Hk Ho). reflexivity.
  - intros k Hk. rewrite !error_slots_showAlert.
    destruct (showErrors_dom_slots [] (doc w))
      as (_ & H & _).
    apply H; exact Hk.
  - repeat split; try reflexivity.
    unfold put; cbn [log]. rewrite fetch_urls_app. cbn. apply app_nil_r.
Qed.


(** ** Outcomes of [postJSON] *)

(** The timer's delay is the timeout itself when that is a non-negative
    32-bit integer. *)
Lemma setTimeout_delay_plain (t : Z) :
  (0 <= t < 2147483648)%Z -> setTimeout_delay t = t.
Proof.
  intros H. unfold setTimeout_delay, ToInt32.
  rewrite Z.mod_small by lia.
  destruct (t <? 2147483648)%Z eqn:L; [lia|].
  apply Z.ltb_ge in L. lia.
Qed.

(** A timeout from 2^31 to 2^32 - 1 wraps to a negative delay, which counts
    as zero. *)
Lemma setTimeout_delay_wrapped (t : Z) :
  (2147483648 <= t < 4294967296)%Z -> setTimeout_delay t = 0%Z.
Proof.
  intros H. unfold setTimeout_delay, ToInt32.
  rewrite Z.mod_small by lia.
  destruct (t <? 2147483648)%Z eqn:L; [apply Z.ltb_lt in L; lia|].
  lia.
Qed.

(** The outcome of [postJSON], by how the request settles. *)
Lemma postJSON_late (E : env) (url : jsstring) (payload : value)
    (t : option Z) (w : world) :
  let T := match t with Some x => x | None => default_timeoutMs end in
  late (setTimeout_delay T) (network E url (post_init E payload)) = true ->
  fst (postJSON E url payload t w) = Throw (AbortError E).
Proof.
  intros T. unfold postJSON. fold T.
  unfold bind, try_catch, fetch, bind, throw.
  rewrite !step_run. cbn [fst snd].
  destruct (network E url (post_init E payload)) as [ms r|ms e|];
    cbn [late]; intros L; try rewrite L; rewrite !step_run; reflexivity.
Qed.

Lemma postJSON_resolved (E : env) (url : jsstring) (payload : value)
    (t : option Z) (w : world) (ms : Z) (res : response) :
  let T := match t with Some x => x | None => default_timeoutMs end in
  network E url (post_init E payload) = Resolves ms res ->
  (ms < setTimeout_delay T)%Z ->
  fst (postJSON E url payload t w)
  = match Browser.body res with
    | BodyText txt =>
        match (if isJson res then JSON_parse E txt else Some (VString txt)) with
        | Some p =>
            if res_ok res then Return p
            else match new_Error
                         (if ToBoolean (errMsg_of p res) then errMsg_of p res
                          else VString (lit "Request failed")) with
                 | Some err => Throw err
                 | None => Throw (engine_error E NotPrimitive)
                 end
        | None => Throw (SyntaxError_json E txt)
        end
    | BodyError e => Throw e
    | BodyStalls => Pending
    end.
Proof.
  intros T N L. unfold postJSON. fold T.
  unfold bind, try_catch, fetch, bind, res_json, res_text, throw, ret, pending.
  rewrite !step_run. cbn [fst snd]. rewrite N.
  apply Z.ltb_lt in L. rewrite Z.ltb_antisym in L.
  apply negb_true_iff in L. rewrite L. rewrite !step_run.
  destruct (isJson res); destruct (Browser.body res) as [txt|e|];
    try destruct (JSON_parse E txt); destruct (res_ok res);
    cbn [negb fst snd]; try destruct (new_Error _); rewrite ?step_run;
    reflexivity.
Qed.

Lemma postJSON_rejected (E : env) (url : jsstring) (payload : value)
    (t : option Z) (w : world) (ms : Z) (e : error) :
  let T := match t with Some x => x | None => default_timeoutMs end in
  network E url (post_init E payload) = Rejects ms e ->
  (ms < setTimeout_delay T)%Z ->
  fst (postJSON E url payload t w) = Throw e.
Proof.
  intros T N L. unfold postJSON. fold T.
  unfold bind, try_catch, fetch, bind, throw.
  rewrite !step_run. cbn [fst snd]. rewrite N.
  apply Z.ltb_lt in L. rewrite Z.ltb_antisym in L.
  apply negb_true_iff in L. rewrite L. rewrite !step_run. reflexivity.
Qed.

(** [postJSON] returns exactly when the request is accepted before the
    timer's delay runs out. *)
Lemma postJSON_returns_iff (E : env) (url : jsstring) (payload : value)
    (t : option Z) (w : world) (p : value) :
  let T := match t with Some x => x | None => default_timeoutMs end in
  fst (postJSON E url payload t w) = Return p
  <-> accepted E url (post_init E payload) (setTimeout_delay T) p.
Proof.
  intros T. unfold accepted, parsed_body. split.
  - intros H.
    destruct (network E url (post_init E payload)) as [ms res|ms e|] eqn:N.
    + destruct (Z.ltb ms (setTimeout_delay T)) eqn:L.
      * apply Z.ltb_lt in L.
        rewrite (postJSON_resolved E url payload t w ms res N L) in H.
        exists ms, res. split; [reflexivity|]. split; [exact L|].
        destruct (Browser.body res) as [txt|e|]; try discriminate H.
        destruct (if isJson res then JSON_parse E txt else Some (VString txt))
          as [q|]; try discriminate H.
        destruct (res_ok res);
          [|destruct (new_Error _); discriminate H].
        injection H as ->. split; reflexivity.
      * apply Z.ltb_ge in L.
        rewrite (postJSON_late E url payload t w) in H; [discriminate H|].
        rewrite N. cbn [late]. apply Z.leb_le. exact L.
    + destruct (Z.ltb ms (setTimeout_delay T)) eqn:L.
      * apply Z.ltb_lt in L.
        rewrite (postJSON_rejected E url payload t w ms e N L) in H.
        discriminate H.
      * apply Z.ltb_ge in L.
        rewrite (postJSON_late E url payload t w) in H; [discriminate H|].
        rewrite N. cbn [late]. apply Z.leb_le. exact L.
    + rewrite (postJSON_late E url payload t w) in H; [discriminate H|].
      rewrite N. reflexivity.
  - intros (ms & res & N & L & K & P).
    rewrite (postJSON_resolved E url payload t w ms res N L).
    destruct (Browser.body res) as [txt|e|]; try discriminate P.
    rewrite P, K. reflexivity.
Qed.


(** X4. Every run of [postJSON], however it ends, arms one timer, then
    issues exactly one request (a POST in cors mode with a JSON content
    type, whose body is the serialized payload) and clears the timer, once
    or twice; it changes neither the document nor the configured base. *)
Theorem postJSON_one_request_and_timer_cleared
    (E : env) (url : jsstring) (payload : value) (t : option Z) (w : world) :
  let T := match t with Some x => x | None => default_timeoutMs end in
  let w' := snd (postJSON E url payload t w) in
  let init := post_init E payload in
  doc w' = doc w
  /\ API_BASE_URL w' = API_BASE_URL w
  /\ listening w' = listening w
  /\ (exists k,
        (k = 1 \/ k = 2)%nat
        /\ log w'
           = log w
               ++ [(A_setTimeout T, doc w); (A_fetch url init, doc w)]
               ++ repeat (A_clearTimeout, doc w) k)
  /\ init_method init = Some (lit "POST")
  /\ get_prop (init_headers init) (lit "Content-Type")
     = Some (lit "application/json")
  /\ init_mode init = Some (lit "cors")
  /\ init_body init = Some (JSON_stringify E payload).
Proof.
  intros T w' init.
  destruct (postJSON_run E url payload t w) as (r & k & H & Hk & _).
  cbv zeta in H. fold T in H. subst w'. rewrite H. cbn [snd].
  repeat split; try reflexivity.
  exists k. split; [exact Hk | reflexivity].
Qed.

(** X5. A request that has not settled when the abort timer fires is
    aborted: [postJSON] throws the engine's [AbortError], whatever answer
    would have come later.  The timer fires after its effective delay: the
    timeout (10000 ms unless the caller says otherwise) read as a signed
    32-bit integer and raised to zero when negative, which is the timeout
    itself between 0 and 2^31 - 1, and zero between 2^31 and 2^32 - 1. *)
Theorem postJSON_aborts_late_request
    (E : env) (url : jsstring) (payload : value) (t : option Z) (w : world) :
  let T := match t with Some x => x | None => default_timeoutMs end in
  late (setTimeout_delay T) (network E url (post_init E payload)) = true ->
  fst (postJSON E url payload t w) = Throw (AbortError E)
  /\ err_name (AbortError E) = lit "AbortError"
  /\ ((0 <= T < 2147483648)%Z -> setTimeout_delay T = T)
  /\ ((2147483648 <= T < 4294967296)%Z -> setTimeout_delay T = 0%Z).
Proof.
  intros T L. split; [exact (postJSON_late E url payload t w L)|].
  split; [reflexivity|]. split; [apply setTimeout_delay_plain|].
  apply setTimeout_delay_wrapped.
Qed.

Lemma postJSON_aborts_late_request_witness :
  let E := Examples.unconfigured in
  let w := Examples.ready Examples.base Examples.jane_form in
  late (setTimeout_delay default_timeoutMs)
    (network E (lit "https://api.example.com/prod/lead")
       (post_init E Examples.jane_body)) = true
  /\ fst (postJSON E (lit "https://api.example.com/prod/lead")
            Examples.jane_body None w) = Throw (AbortError E).
Proof.
  intros E w.
  assert (H : late (setTimeout_delay default_timeoutMs)
                (network E (lit "https://api.example.com/prod/lead")
                   (post_init E Examples.jane_body)) = true) by reflexivity.
  split; [exact H|].
  exact (proj1 (postJSON_aborts_late_request E
                  (lit "https://api.example.com/prod/lead")
                  Examples.jane_body None w H)).
Defined.

(** X6. Failures on the way reach the caller unchanged: a fetch rejected
    before the timer's delay runs out rethrows its error; for a response
    received before then, an error while reading the body is rethrown, and a
    body announced as JSON that does not parse throws the parser's
    [SyntaxError], also under a success status. *)
Theorem postJSON_rethrows_failures
    (E : env) (url : jsstring) (payload : value) (t : option Z) (w : world) :
  let T := match t with Some x => x | None => default_timeoutMs end in
  (forall ms e,
      network E url (post_init E payload) = Rejects ms e ->
      (ms < setTimeout_delay T)%Z ->
      fst (postJSON E url payload t w) = Throw e)
  /\ (forall ms res e,
        network E url (post_init E payload) = Resolves ms res ->
        (ms < setTimeout_delay T)%Z ->
        Browser.body res = BodyError e ->
        fst (postJSON E url payload t w) = Throw e)
  /\ (forall ms res txt,
        network E url (post_init E payload) = Resolves ms res ->
        (ms < setTimeout_delay T)%Z ->
        Browser.body res = BodyText txt -> isJson res = true ->
        JSON_parse E txt = None ->
        fst (postJSON E url payload t w) = Throw (SyntaxError_json E txt)
        /\ err_name (SyntaxError_json E txt) = lit "SyntaxError").
Proof.
  intros T. split; [|split].
  - intros ms e N L. exact (postJSON_rejected E url payload t w ms e N L).
  - intros ms res e N L B.
    rewrite (postJSON_resolved E url payload t w ms res N L), B. reflexivity.
  - intros ms res txt N L B J P.
    rewrite (postJSON_resolved E url payload t w ms res N L), B, J, P.
    split; reflexivity.
Qed.

(** X18. A body that is not announced as JSON is never searched for a
    message: for a response received before the timer's delay runs out with
    a failure status and a content type that is absent or lacks
    [application/json], the thrown message is the status text, or
    [Request failed] when that is empty, whatever the body says. *)
Theorem text_body_message_is_ignored
    (E : env) (url : jsstring) (payload : value) (t : option Z) (w : world)
    (ms : Z) (res : response) (txt : jsstring) :
  let T := match t with Some x => x | None => default_timeoutMs end in
  network E url (post_init E payload) = Resolves ms res ->
  (ms < setTimeout_delay T)%Z ->
  isJson res = false ->
  Browser.body res = BodyText txt ->
  res_ok res = false ->
  fst (postJSON E url payload t w)
  = Throw {| err_name := lit "Error";
             err_message := if JsString.truthy (statusText res)
                            then statusText res
                            else lit "Request failed" |}.
Proof.
  intros T N L J B K.
  rewrite (postJSON_resolved E url payload t w ms res N L), B, J, K.
  unfold errMsg_of. cbn [typeof ToBoolean].
  destruct (JsString.truthy (statusText res)); reflexivity.
Qed.

Lemma text_body_message_is_ignored_witness :
  let res :=
    Examples.text_response 502 (lit "Bad Gateway") Examples.refusal_text in
  let E :=
    Examples.surroundings Stalls (Resolves 120 res)
      [(Examples.refusal_text, Examples.refusal_doc)] in
  let w := Examples.ready Examples.base Examples.jane_form in
  let url := lit "https://api.example.com/prod/lead" in
  JSON_parse E Examples.refusal_text = Some Examples.refusal_doc
  /\ fst (postJSON E url Examples.jane_body None w)
     = Throw {| err_name := lit "Error"; err_message := lit "Bad Gateway" |}.
Proof.
  intros res E w url. split; [reflexivity|].
  exact (text_body_message_is_ignored E url Examples.jane_body None w 120%Z
           res Examples.refusal_text eq_refl eq_refl eq_refl eq_refl eq_refl).
Defined.

Lemma postJSON_rethrows_failures_witness :
  let res := Examples.json_response 200 (lit "OK") (lit "<html>") in
  let E := Examples.surroundings Stalls (Resolves 120 res) [] in
  let w := Examples.ready Examples.base Examples.jane_form in
  let url := lit "https://api.example.com/prod/lead" in
  res_ok res = true
  /\ fst (postJSON E url Examples.jane_body None w)
     = Throw (SyntaxError_json E (lit "<html>")).
Proof.
  intros res E w url. split; [reflexivity|].
  destruct (postJSON_rethrows_failures E url Examples.jane_body None w)
    as (_ & _ & H).
  exact (proj1 (H 120%Z res (lit "<html>")
                  eq_refl eq_refl eq_refl eq_refl eq_refl)).
Defined.


(** ** Outcomes of a submission *)

Lemma error_slots_cleared (errs : object jsstring) (d : document) k old :
  errs = [] -> In k field_keys -> get_prop (error_slots d) k = Some old ->
  get_prop (error_slots (showErrors_dom errs d)) k = Some [].
Proof.
  intros -> Hk Ho.
  destruct (showErrors_dom_slots [] d) as (_ & _ & _ & H).
  rewrite (H k old Hk Ho). reflexivity.
Qed.

Lemma failure_showAlert_success v c d :
  failure (showAlert_dom (lit "success") v c d)
  = {| hidden := true; textContent := textContent (failure d) |}.
Proof. reflexivity. Qed.

(** The outcome of [postJSON] does not depend on the document or the log. *)
Lemma postJSON_fst_world (E : env) (url : jsstring) (payload : value)
    (t : option Z) (w1 w2 : world) :
  fst (postJSON E url payload t w1) = fst (postJSON E url payload t w2).
Proof.
  unfold postJSON.
  unfold bind, try_catch, fetch, bind, res_json, res_text, throw, ret, pending.
  rewrite !step_run. cbn [fst snd].
  destruct (network E url (post_init E payload)) as [ms r|ms e|].
  - destruct (_ <=? ms)%Z; rewrite !step_run; cbn [fst snd];
      [reflexivity|].
    destruct (isJson r); destruct (Browser.body r) as [txt|e|];
      try destruct (JSON_parse E txt); destruct (negb (res_ok r));
      try destruct (new_Error _); rewrite ?step_run; reflexivity.
  - destruct (_ <=? ms)%Z; rewrite !step_run; reflexivity.
  - rewrite !step_run; reflexivity.
Qed.

(** The state in which a valid submission reaches [postJSON], and what the
    listener does with each outcome. *)
Lemma on_submit_valid (E : env) (w : world) :
  let f := lead_form (doc w) in
  let d1 := showAlert_dom (lit "success") false None (doc w) in
  let d2 := showAlert_dom (lit "error") false None d1 in
  let d3 := showErrors_dom [] d2 in
  let d4 := setLoading_dom true d3 in
  let url := template_API_BASE_URL (API_BASE_URL w) ++ lit "/lead" in
  ok (validate f) = true ->
  exists l,
    match fst (postJSON E url (buildPayload E f) None w) with
    | Return resp =>
        let d5 := showAlert_dom (lit "success") true None d4 in
        let d7 := setLoading_dom false (formReset_dom d5) in
        on_submit E w = (Return tt, put w d7 l)
        /\ In (A_consoleInfo (lit "Lead submitted:") resp, d4) l
    | Throw e =>
        let d5 :=
          showAlert_dom (lit "error") true (Some went_wrong_text) d4 in
        let d6 := setLoading_dom false d5 in
        on_submit E w = (Return tt, put w d6 l)
        /\ In (A_consoleError (lit "Submit failed:") e, d4) l
    | Pending => on_submit E w = (Pending, put w d4 l)
    end.
Proof.
  intros f d1 d2 d3 d4 url Hok.
  pose proof (on_submit_eq E w) as Eq. cbv zeta in Eq.
  fold f in Eq. rewrite Hok in Eq.
  assert (Hv : errors (validate f) = []) by (apply validate_ok; exact Hok).
  rewrite Hv in Eq. fold d1 d2 d3 d4 url in Eq.
  match type of Eq with
  | context [postJSON _ _ _ _ ?x] => set (w4 := x) in *
  end.
  rewrite (postJSON_fst_world E url (buildPayload E f) None w w4).
  destruct (postJSON_run E url (buildPayload E f) None w4)
    as (r & k & Hrun & _ & _).
  rewrite Hrun in Eq. rewrite Hrun. cbn [fst].
  rewrite Eq. clear Eq Hrun. subst w4.
  rewrite !put_doc, !put_put.
  destruct r as [resp|e|]; cbv zeta; rewrite ?put_put; eexists;
    try (split; [reflexivity | apply in_or_app; right; left; reflexivity]);
    reflexivity.
Qed.

(** X7. When a valid submission is accepted (a success status and a
    readable body, in time), the listener returns normally with the success
    banner showing and the failure banner hidden, the form put back to its
    defaults, the field errors emptied, the button enabled again, and the
    response logged. *)
Theorem accepted_submission_resets_form (E : env) (w : world) (p : value) :
  let f := lead_form (doc w) in
  let url := template_API_BASE_URL (API_BASE_URL w) ++ lit "/lead" in
  let init := post_init E (buildPayload E f) in
  let w' := snd (on_submit E w) in
  ok (validate f) = true ->
  accepted E url init default_timeoutMs p ->
  fst (on_submit E w) = Return tt
  /\ hidden (success (doc w')) = false
  /\ hidden (failure (doc w')) = true
  /\ textContent (success (doc w')) = textContent (success (doc w))
  /\ lead_form (doc w') = form_defaults (doc w)
  /\ submit_btn (doc w') = {| disabled := false; class_loading := false |}
  /\ (forall k old, In k field_keys ->
        get_prop (error_slots (doc w)) k = Some old ->
        get_prop (error_slots (doc w')) k = Some [])
  /\ exists d, In (A_consoleInfo (lit "Lead submitted:") p, d) (log w').
Proof.
  intros f url init w' Hok Hacc.
  destruct (on_submit_valid E w Hok) as (l & H). cbv zeta in H.
  fold f url in H.
  apply (postJSON_returns_iff E url (buildPayload E f) None w) in Hacc.
  rewrite Hacc in H. destruct H as [H Hin]. subst w'. rewrite H.
  cbn [fst snd]. rewrite put_doc.
  split; [reflexivity|]. split; [reflexivity|]. split; [reflexivity|].
  split; [reflexivity|]. split; [reflexivity|]. split; [reflexivity|].
  split.
  - intros k old Hk Ho.
    change (get_prop
              (error_slots
                 (showErrors_dom []
                    (showAlert_dom (lit "error") false None
                       (showAlert_dom (lit "success") false None (doc w)))))
              k = Some []).
    eapply error_slots_cleared; [reflexivity | exact Hk |].
    rewrite !error_slots_showAlert. exact Ho.
  - eexists. unfold put; cbn [log]. apply in_or_app; right. exact Hin.
Qed.

(** X8. When a valid submission is neither accepted nor left waiting for a
    body, the listener returns normally with the failure banner showing the
    fixed retry message (never the server's text, which is only logged), the
    success banner hidden, the field values kept for another attempt, and
    the button enabled again. *)
Theorem failed_submission_keeps_form (E : env) (w : world) :
  let f := lead_form (doc w) in
  let url := template_API_BASE_URL (API_BASE_URL w) ++ lit "/lead" in
  let init := post_init E (buildPayload E f) in
  let w' := snd (on_submit E w) in
  ok (validate f) = true ->
  (forall p, ~ accepted E url init default_timeoutMs p) ->
  ~ body_stalls E url init default_timeoutMs ->
  fst (on_submit E w) = Return tt
  /\ hidden (failure (doc w')) = false
  /\ textContent (failure (doc w')) = went_wrong_text
  /\ hidden (success (doc w')) = true
  /\ lead_form (doc w') = lead_form (doc w)
  /\ submit_btn (doc w') = {| disabled := false; class_loading := false |}
  /\ exists e d,
       fst (postJSON E url (buildPayload E f) None w) = Throw e
       /\ In (A_consoleError (lit "Submit failed:") e, d) (log w').
Proof.
  intros f url init w' Hok Hna Hns.
  destruct (on_submit_valid E w Hok) as (l & H). cbv zeta in H.
  fold f url in H.
  destruct (fst (postJSON E url (buildPayload E f) None w)) as [p|e|] eqn:R.
  - exfalso. apply (Hna p).
    apply (postJSON_returns_iff E url (buildPayload E f) None w). exact R.
  - destruct H as [H Hin]. subst w'. rewrite H. cbn [fst snd].
    rewrite put_doc.
    split; [reflexivity|]. split; [reflexivity|]. split; [reflexivity|].
    split; [reflexivity|].
    split; [cbn [lead_form setLoading_dom with_submit_btn];
            rewrite !lead_form_showAlert; reflexivity|].
    split; [reflexivity|].
    exists e. eexists. split; [reflexivity|].
    unfold put; cbn [log]. apply in_or_app; right. exact Hin.
  - exfalso. apply Hns.
    apply (postJSON_pending E url (buildPayload E f) None w) in R. exact R.
Qed.

(** X16. A submission that passes validation empties every field error left
    by an earlier attempt, whatever becomes of the request. *)
Theorem valid_submission_clears_field_errors (E : env) (w : world) :
  ok (validate (lead_form (doc w))) = true ->
  forall k old, In k field_keys ->
    get_prop (error_slots (doc w)) k = Some old ->
    get_prop (error_slots (doc (snd (on_submit E w)))) k = Some [].
Proof.
  intros Hok k old Hk Ho.
  destruct (on_submit_valid E w Hok) as (l & H). cbv zeta in H.
  assert (S : get_prop
                (error_slots
                   (showErrors_dom []
                      (showAlert_dom (lit "error") false None
                         (showAlert_dom (lit "success") false None (doc w)))))
                k = Some []).
  { eapply error_slots_cleared; [reflexivity | exact Hk |].
    rewrite !error_slots_showAlert. exact Ho. }
  destruct (fst (postJSON E _ _ None w)) as [p|e|];
    [destruct H as [H _] | destruct H as [H _] |];
    rewrite H; cbn [snd]; rewrite put_doc; exact S.
Qed.

Lemma fetch_urls_repeat_clear (d : document) (k : nat) :
  fetch_urls (repeat (A_clearTimeout, d) k) = [].
Proof. induction k; simpl; auto. Qed.

(** X15. No error escapes the submit listener and no run issues more than
    one request: for every form and every network the run returns normally
    or stays pending, adds at most one request to the log, and leaves the
    configured base and the listeners as they were. *)
Theorem submit_never_throws (E : env) (w : world) :
  let w' := snd (on_submit E w) in
  (fst (on_submit E w) = Return tt \/ fst (on_submit E w) = Pending)
  /\ (exists l,
        log w' = log w ++ l /\ (List.length (fetch_urls l) <= 1)%nat)
  /\ API_BASE_URL w' = API_BASE_URL w
  /\ listening w' = listening w.
Proof.
  intros w'. subst w'.
  destruct (on_submit_run E w) as [[_ H]|[_ (k & Hk & H)]].
  - rewrite H. cbn [fst snd]. split; [left; reflexivity|].
    split; [|split; reflexivity].
    eexists. split; [reflexivity|]. cbn. lia.
  - cbv zeta in H.
    destruct H as [(resp & H)|[(e & H)|(_ & H)]]; rewrite H; cbn [fst snd];
      (split; [first [left; reflexivity | right; reflexivity]|]);
      (split; [|split; reflexivity]);
      (eexists; split; [reflexivity|]);
      rewrite !fetch_urls_app, fetch_urls_repeat_clear; cbn; lia.
Qed.


(** ** White space around the fields *)

Lemma trimStart_ws (a s : jsstring) :
  Forall (fun c => isWhiteSpace c = true) a -> trimStart (a ++ s) = trimStart s.
Proof.
  induction 1 as [|c a Hc _ IH]; simpl; [reflexivity|]. rewrite Hc. exact IH.
Qed.

Lemma trimStart_app (s b : jsstring) :
  trimStart (s ++ b)
  = match trimStart s with
    | [] => trimStart b
    | _ :: _ => trimStart s ++ b
    end.
Proof.
  induction s as [|c s IH]; simpl; [destruct (trimStart b); reflexivity|].
  destruct (isWhiteSpace c); [exact IH | reflexivity].
Qed.

Lemma trimEnd_ws (s b : jsstring) :
  Forall (fun c => isWhiteSpace c = true) b -> trimEnd (s ++ b) = trimEnd s.
Proof.
  intros H. unfold trimEnd. rewrite rev_app_distr, trimStart_ws; [reflexivity|].
  apply Forall_rev. exact H.
Qed.

Lemma trim_padded (s s' : jsstring) : padded s s' -> trim s' = trim s.
Proof.
  intros (a & b & -> & Ha & Hb). unfold trim.
  rewrite trimStart_ws by exact Ha. rewrite trimStart_app.
  destruct (trimStart s) as [|c u] eqn:E.
  - rewrite <- (app_nil_r b), trimStart_ws by exact Hb. reflexivity.
  - apply trimEnd_ws. exact Hb.
Qed.

(** X9. White space around a field never matters: two forms whose name,
    e-mail and message differ only by white space added at their ends (and
    whose consent boxes agree) get the same verdict, the same errors and the
    same data from [validate], and the same payload. *)
Theorem validate_ignores_padding (f f' : form_state) :
  padded (name_value f) (name_value f') ->
  padded (email_value f) (email_value f') ->
  padded (message_value f) (message_value f') ->
  consent_checked f' = consent_checked f ->
  validate f' = validate f
  /\ forall E, buildPayload E f' = buildPayload E f.
Proof.
  intros Hn He Hm Hc.
  assert (V : validate f' = validate f).
  { unfold validate.
    rewrite (trim_padded _ _ Hn), (trim_padded _ _ He), (trim_padded _ _ Hm), Hc.
    reflexivity. }
  split; [exact V|]. intros E. unfold buildPayload. rewrite V. reflexivity.
Qed.

Lemma validate_ignores_padding_witness :
  let f := Examples.jane_form in
  let f' :=
    {| name_value := lit "  Jane ";
       email_value := lit "jane@example.com " ++ [0xA0%N];
       message_value :=
         [0x9%N] ++ lit "Hello, I am interested in your services!";
       consent_checked := true |} in
  padded (name_value f) (name_value f')
  /\ validate f' = validate f.
Proof.
  intros f f'.
  assert (Hn : padded (name_value f) (name_value f')).
  { exists (lit "  "), (lit " "). repeat split; repeat constructor. }
  assert (He : padded (email_value f) (email_value f')).
  { exists [], (lit " " ++ [0xA0%N]). repeat split; repeat constructor. }
  assert (Hm : padded (message_value f) (message_value f')).
  { exists [0x9%N], []. repeat split; repeat constructor. }
  split; [exact Hn|].
  exact (proj1 (validate_ignores_padding f f' Hn He Hm eq_refl)).
Defined.

(** ** What the e-mail pattern lets through *)

Lemma count_at_plain (l : jsstring) :
  Forall plain l -> count_occ N.eq_dec l 0x40%N = 0%nat.
Proof.
  induction 1 as [|c l [_ Hc] _ IH]; simpl; [reflexivity|].
  destruct (N.eq_dec c 0x40%N); [contradiction | exact IH].
Qed.

Lemma plain_not_space (l : jsstring) :
  Forall plain l -> Forall (fun c => isWhiteSpace c = false) l.
Proof. apply Forall_impl. intros c [H _]; exact H. Qed.

(** X10. Every address the e-mail check accepts holds exactly one [@], no
    white space, and at least five code units, and splits as text, [@],
    text, a full stop, text with none of the three texts empty. *)
Theorem accepted_email_shape (s : jsstring) :
  test_anchored email_re s = true ->
  count_occ N.eq_dec s 0x40%N = 1%nat
  /\ Forall (fun c => isWhiteSpace c = false) s
  /\ (5 <= List.length s)%nat
  /\ exists l d t,
       s = l ++ [0x40%N] ++ d ++ [0x2E%N] ++ t
       /\ l <> [] /\ d <> [] /\ t <> [].
Proof.
  intros H. apply email_re_shape in H.
  destruct H as (l & d & t & -> & Hl & Hd & Ht & Pl & Pd & Pt).
  split; [|split; [|split]].
  - rewrite !count_occ_app, (count_at_plain _ Pl), (count_at_plain _ Pd),
      (count_at_plain _ Pt). reflexivity.
  - repeat (apply Forall_app; split);
      try (apply plain_not_space; assumption);
      (constructor; [reflexivity | constructor]).
  - rewrite !length_app. simpl.
    destruct l; [contradiction|]. destruct d; [contradiction|].
    destruct t; [contradiction|]. simpl. lia.
  - exists l, d, t. repeat split; assumption.
Qed.

Lemma accepted_email_shape_witness :
  test_anchored email_re (lit "jane@example.com") = true
  /\ count_occ N.eq_dec (lit "jane@example.com") 0x40%N = 1%nat.
Proof.
  assert (H : test_anchored email_re (lit "jane@example.com") = true)
    by reflexivity.
  split; [exact H|].
  exact (proj1 (accepted_email_shape (lit "jane@example.com") H)).
Defined.

(** ** The content-type test *)

Lemma prefixb_spec (t s : jsstring) :
  prefixb t s = true <-> exists b, s = t ++ b.
Proof.
  revert s; induction t as [|x t IH]; intros s; simpl.
  - split; [intros _; exists s; reflexivity | reflexivity].
  - destruct s as [|y s].
    + split; [discriminate | intros (b & H); discriminate H].
    + rewrite andb_true_iff, N.eqb_eq, IH. split.
      * intros (-> & b & ->). exists b. reflexivity.
      * intros (b & H). injection H as -> ->. split; [reflexivity|].
        exists b. reflexivity.
Qed.

Lemma includes_spec (s t : jsstring) :
  includes s t = true <-> exists a b, s = a ++ t ++ b.
Proof.
  induction s as [|c s IH].
  - cbn [includes]. rewrite orb_false_r, prefixb_spec. split.
    + intros (b & H). exists [], b. exact H.
    + intros (a & b & H). destruct a; [exists b; exact H|discriminate H].
  - cbn [includes]. rewrite orb_true_iff, prefixb_spec, IH. split.
    + intros [(b & H)|(a & b & H)].
      * exists [], b. exact H.
      * exists (c :: a), b. rewrite H. reflexivity.
    + intros (a & b & H). destruct a as [|x a].
      * left. exists b. exact H.
      * right. injection H as _ H. exists a, b. exact H.
Qed.

(** A response counts as JSON exactly when it has a content-type header
    and the header holds the text [application/json] somewhere. *)
Lemma isJson_spec (res : response) :
  isJson res = true
  <-> exists ct a b,
        content_type res = Some ct
        /\ ct = a ++ lit "application/json" ++ b.
Proof.
  unfold isJson. destruct (content_type res) as [ct|].
  - rewrite includes_spec. split.
    + intros (a & b & H). exists ct, a, b. split; [reflexivity | exact H].
    + intros (ct' & a & b & H & H'). injection H as <-. exists a, b. exact H'.
  - split; [discriminate | intros (ct & a & b & H & _); discriminate H].
Qed.

(** X17. [postJSON] parses a body as JSON exactly when the response has a
    content-type header and the header holds the text [application/json]
    somewhere, in that exact case; parameters before or after it do not
    matter.  For a response received before the timer's delay runs out with
    a success status and a body text: with such a header the result is the
    parsed value, or the parser's [SyntaxError] when the text does not
    parse; with any other header, or none, the result is the text itself,
    unparsed. *)
Theorem postJSON_parses_iff_header_contains
    (E : env) (url : jsstring) (payload : value) (t : option Z) (w : world)
    (ms : Z) (res : response) (txt : jsstring) :
  let T := match t with Some x => x | None => default_timeoutMs end in
  network E url (post_init E payload) = Resolves ms res ->
  (ms < setTimeout_delay T)%Z ->
  res_ok res = true ->
  Browser.body res = BodyText txt ->
  ((exists ct a b,
       content_type res = Some ct /\ ct = a ++ lit "application/json" ++ b) ->
   fst (postJSON E url payload t w)
   = match JSON_parse E txt with
     | Some p => Return p
     | None => Throw (SyntaxError_json E txt)
     end)
  /\ ((forall ct a b,
         content_type res = Some ct ->
         ct <> a ++ lit "application/json" ++ b) ->
      fst (postJSON E url payload t w) = Return (VString txt)).
Proof.
  intros T N L K B.
  rewrite (postJSON_resolved E url payload t w ms res N L), B.
  split.
  - intros H. apply isJson_spec in H. rewrite H, K.
    destruct (JSON_parse E txt); reflexivity.
  - intros H.
    assert (J : isJson res = false).
    { destruct (isJson res) eqn:J; [|reflexivity].
      apply isJson_spec in J. destruct J as (ct & a & b & Hc & Hs).
      exfalso. exact (H ct a b Hc Hs). }
    rewrite J, K. reflexivity.
Qed.

Lemma postJSON_parses_iff_header_contains_witness :
  let res :=
    {| status := 200; statusText := lit "OK";
       content_type := Some (lit "application/json; charset=utf-8");
       Browser.body := BodyText Examples.created_text |} in
  let E :=
    Examples.surroundings Stalls (Resolves 120 res)
      [(Examples.created_text, Examples.created_doc)] in
  let w := Examples.ready Examples.base Examples.jane_form in
  let url := lit "https://api.example.com/prod/lead" in
  fst (postJSON E url Examples.jane_body None w)
  = Return Examples.created_doc.
Proof.
  intros res E w url.
  destruct (postJSON_parses_iff_header_contains E url Examples.jane_body None
              w 120%Z res Examples.created_text
              eq_refl eq_refl eq_refl eq_refl) as [H _].
  rewrite H; [reflexivity|].
  exists (lit "application/json; charset=utf-8"), [], (lit "; charset=utf-8").
  split; reflexivity.
Defined.


(** ** Loading the configuration *)

(** X11. [loadConfig] never throws: every run returns normally or stays
    pending, issues exactly one request (a GET of [./config.json] that
    bypasses the cache), leaves the document and the listeners alone, and
    either keeps the configured base as it was or sets it to the trimmed,
    normalised string the configuration document names. *)
Theorem loadConfig_never_throws (E : env) (w : world) :
  let w' := snd (loadConfig E w) in
  (fst (loadConfig E w) = Return tt \/ fst (loadConfig E w) = Pending)
  /\ doc w' = doc w
  /\ listening w' = listening w
  /\ (exists l,
        log w' = log w ++ (A_fetch config_url config_init, doc w) :: l
        /\ fetch_urls l = [])
  /\ init_method config_init = None
  /\ init_cache config_init = Some (lit "no-store")
  /\ (API_BASE_URL w' = API_BASE_URL w
      \/ exists s,
           config_names E s /\ trim s <> []
           /\ API_BASE_URL w' = Some (replace_trailing_solidus (trim s))).
Proof.
  intros w'. subst w'.
  unfold loadConfig, bind, try_catch, fetch, bind, res_json, lift_read,
    throw, ret, pending.
  rewrite step_run. cbn [fst snd].
  destruct (network E config_url config_init) as [ms res|ms e|] eqn:N.
  - destruct (res_ok res) eqn:K; cbn [negb].
    + destruct (Browser.body res) as [txt|e|] eqn:B.
      * destruct (JSON_parse E txt) as [cfg|] eqn:P.
        -- destruct (read_prop cfg (lit "API_BASE_URL"))
             as [e|[[|b|n|s|items|fs]|]] eqn:R;
             try (cbn [fst snd]; repeat split; auto;
                  exists []; split; reflexivity).
           destruct (JsString.truthy (trim s)) eqn:T;
             [|cbn [fst snd]; repeat split; auto;
               exists []; split; reflexivity].
           unfold set_API_BASE_URL. cbn [fst snd doc listening log put
                                           API_BASE_URL].
           repeat split; auto.
           ++ eexists. rewrite <- app_assoc. split; reflexivity.
           ++ right. exists s. split; [|split; [|reflexivity]].
              ** exists ms, res, txt, cfg. repeat split; assumption.
              ** intros Z. rewrite Z in T. discriminate T.
        -- cbn [fst snd]; repeat split; auto; exists []; split; reflexivity.
      * cbn [fst snd]; repeat split; auto; exists []; split; reflexivity.
      * cbn [fst snd]; repeat split; auto; exists []; split; reflexivity.
    + cbn [fst snd]; repeat split; auto; exists []; split; reflexivity.
  - cbn [fst snd]; repeat split; auto; exists []; split; reflexivity.
  - cbn [fst snd]; repeat split; auto; exists []; split; reflexivity.
Qed.

(** ** The page after its load *)

(** X13. With a configuration that names a base which is not blank and not
    a lone solidus, the load listener returns with both listeners attached
    and the base stored; apart from the year it leaves the page as it found
    it: the button is not touched and no banner is shown. *)
Theorem configured_page_is_left_as_found
    (E : env) (d0 : document) (s : jsstring) :
  let b := replace_trailing_solidus (trim s) in
  let dY := initYear_dom E d0 in
  config_names E s -> b <> [] ->
  on_DOMContentLoaded E (initial_world d0)
  = (Return tt,
     {| doc := dY; API_BASE_URL := Some b; listening := true;
        log := [(A_initYear, dY);
                (A_fetch config_url config_init, dY);
                (A_setApiBase b, dY);
                (A_addListeners, dY)] |})
  /\ submit_btn dY = submit_btn d0
  /\ success dY = success d0 /\ failure dY = failure d0
  /\ lead_form dY = lead_form d0 /\ error_slots dY = error_slots d0.
Proof.
  intros b dY Hc Hb.
  assert (Ht : trim s <> []).
  { intros Z. apply Hb. unfold b. rewrite Z. reflexivity. }
  split; [|repeat split].
  unfold on_DOMContentLoaded, initYear, bind.
  rewrite step_run. rewrite (loadConfig_names E _ s Hc Ht). fold b.
  unfold get_API_BASE_URL. cbn [API_BASE_URL].
  destruct b as [|c r]; [contradiction|]. reflexivity.
Qed.

(** X12. A configuration whose base is a lone solidus passes the non-blank
    test but is normalised to the empty string: the page ends as an
    unconfigured one, with the button disabled, the configuration-pending
    message showing and no listener attached. *)
Theorem lone_solidus_base_disables_page
    (E : env) (d0 : document) (s : jsstring) :
  let w := snd (on_DOMContentLoaded E (initial_world d0)) in
  config_names E s -> trim s = [solidus] ->
  fst (on_DOMContentLoaded E (initial_world d0)) = Return tt
  /\ API_BASE_URL w = Some []
  /\ listening w = false
  /\ disabled (submit_btn (doc w)) = true
  /\ hidden (failure (doc w)) = false
  /\ textContent (failure (doc w)) = not_configured_text
  /\ hidden (success (doc w)) = true
  /\ fetch_urls (log w) = [config_url].
Proof.
  intros w Hc Ht. subst w.
  assert (Hn : trim s <> []) by (rewrite Ht; discriminate).
  unfold on_DOMContentLoaded, initYear, bind.
  rewrite step_run. rewrite (loadConfig_names E _ s Hc Hn). rewrite Ht.
  cbn. repeat split.
Qed.

(** X14. The configuration request has no timeout: when it never completes,
    the load listener stays pending for good, with the year written and
    nothing else done — no listener attached, the button not disabled, no
    message shown. *)
Theorem stalled_configuration_leaves_page_inert
    (E : env) (d0 : document) :
  let dY := initYear_dom E d0 in
  config_stalls E ->
  on_DOMContentLoaded E (initial_world d0)
  = (Pending,
     {| doc := dY; API_BASE_URL := None; listening := false;
        log := [(A_initYear, dY); (A_fetch config_url config_init, dY)] |})
  /\ submit_btn dY = submit_btn d0
  /\ success dY = success d0 /\ failure dY = failure d0.
Proof.
  intros dY H. split; [|repeat split].
  unfold on_DOMContentLoaded, initYear, bind, loadConfig, bind, try_catch,
    fetch, bind, res_json, pending.
  rewrite !step_run. cbn [fst snd].
  destruct H as [N|(ms & res & N & K & B)]; rewrite N.
  - reflexivity.
  - cbv beta iota. unfold ret. cbn [fst snd].

    rewrite K. cbn [negb]. rewrite B. reflexivity.
Qed.


(** ** Banner texts over the life of the page *)

Lemma texts_step (d0 : document) (a : action) (f : document -> document) :
  (forall d, texts_ok d0 d -> texts_ok d0 (f d)) ->
  keeps (texts_inv d0) (step a f).
Proof.
  intros Hf w [Hd Hl]. unfold step, texts_inv; simpl. split; [auto|].
  apply Forall_app. split; [assumption|]. constructor; [simpl; auto|constructor].
Qed.

Lemma texts_set_API_BASE_URL (d0 : document) u :
  keeps (texts_inv d0) (set_API_BASE_URL u).
Proof.
  intros w [Hd Hl]. unfold set_API_BASE_URL, texts_inv; simpl. split; [auto|].
  apply Forall_app. split; [assumption|]. constructor; [simpl; auto|constructor].
Qed.

Lemma texts_add_listeners (d0 : document) : keeps (texts_inv d0) add_listeners.
Proof.
  intros w [Hd Hl]. unfold add_listeners, texts_inv; simpl. split; [auto|].
  apply Forall_app. split; [assumption|]. constructor; [simpl; auto|constructor].
Qed.

(** A document step of the script keeps the texts: it either leaves both
    banners' texts or writes one of the two messages into the failure
    banner. *)
Ltac texts_dom :=
  intros ? [? ?]; unfold texts_ok, failure_text_known in *; cbn;
  split; [assumption|];
  first [ assumption | right; left; reflexivity | right; right; reflexivity ].

Ltac keeps_texts known :=
  repeat first
    [ known
    | apply keeps_ret | apply keeps_throw | apply keeps_pending
    | apply keeps_get_doc | apply keeps_get_API_BASE_URL
    | apply texts_set_API_BASE_URL | apply texts_add_listeners
    | apply texts_step; texts_dom
    | apply keeps_bind; [|intros ?]
    | apply keeps_try_catch; [|intros ?]
    | apply keeps_try_finally
    | match goal with
      | |- keeps _ (if ?b then _ else _) => destruct b
      | |- keeps _ (match ?x with _ => _ end) => destruct x
      end ].

Lemma texts_fetch d0 E url init t : keeps (texts_inv d0) (fetch E url init t).
Proof. unfold fetch. keeps_texts fail. Qed.

Lemma texts_res_json d0 E res : keeps (texts_inv d0) (res_json E res).
Proof. unfold res_json. keeps_texts fail. Qed.

Lemma texts_res_text d0 res : keeps (texts_inv d0) (res_text res).
Proof. unfold res_text. keeps_texts fail. Qed.

Lemma texts_lift_read d0 E r : keeps (texts_inv d0) (lift_read E r).
Proof. unfold lift_read. keeps_texts fail. Qed.

Lemma texts_loadConfig d0 E : keeps (texts_inv d0) (loadConfig E).
Proof.
  unfold loadConfig.
  keeps_texts ltac:(first [ apply texts_fetch | apply texts_res_json
                          | apply texts_lift_read ]).
Qed.

Lemma texts_postJSON d0 E url p t : keeps (texts_inv d0) (postJSON E url p t).
Proof.
  unfold postJSON.
  keeps_texts ltac:(first [ apply texts_fetch | apply texts_res_json
                          | apply texts_res_text ]).
Qed.

Lemma texts_on_submit d0 E : keeps (texts_inv d0) (on_submit E).
Proof.
  unfold on_submit, showAlert, showErrors, setLoading.
  keeps_texts ltac:(apply texts_postJSON).
Qed.

Lemma texts_on_reset_click d0 : keeps (texts_inv d0) on_reset_click.
Proof. unfold on_reset_click, showAlert, showErrors. keeps_texts fail. Qed.

Lemma texts_on_DOMContentLoaded d0 E :
  keeps (texts_inv d0) (on_DOMContentLoaded E).
Proof.
  unfold on_DOMContentLoaded, initYear, showAlert.
  keeps_texts ltac:(apply texts_loadConfig).
Qed.

Lemma texts_lifecycle d0 E0 evs : texts_inv d0 (lifecycle E0 d0 evs).
Proof.
  unfold lifecycle.
  assert (B : texts_inv d0 (snd (on_DOMContentLoaded E0 (initial_world d0)))).
  { apply texts_on_DOMContentLoaded.
    split; [split; [reflexivity | left; reflexivity] | constructor]. }
  revert B. generalize (snd (on_DOMContentLoaded E0 (initial_world d0))).
  induction evs as [|[E ev] evs IH]; intros w B; cbn [fold_left]; [exact B|].
  apply IH. unfold dispatch; cbn [fst snd]. destruct ev.
  - destruct (listening w); [apply texts_on_submit|]; assumption.
  - destruct (listening w); [apply texts_on_reset_click|]; assumption.
  - apply (texts_step d0 (A_userInput f) (fun d => with_form d f));
      [|assumption]. intros d Hd; exact Hd.
Qed.

(** X3. The script never rewrites the success banner and writes only its own
    two messages into the failure banner: at every recorded step of the
    page's life, and in its current state, the success banner holds the text
    the page came with, and the failure banner holds the page's text, the
    configuration-pending message or the retry message, never anything a
    server sent. *)
Theorem banner_texts_are_fixed
    (E0 : env) (d0 : document) (evs : list (env * page_event)) :
  let w := lifecycle E0 d0 evs in
  texts_ok d0 (doc w) /\ Forall (fun e => texts_ok d0 (snd e)) (log w).
Proof. exact (texts_lifecycle d0 E0 evs). Qed.


(** ** The further properties at concrete pages *)

Lemma accepted_submission_witness :
  let E := Examples.deployed Examples.base in
  let w := Examples.ready Examples.base Examples.jane_form in
  ok (validate (lead_form (doc w))) = true
  /\ fst (on_submit E w) = Return tt
  /\ lead_form (doc (snd (on_submit E w))) = Examples.blank_form
  /\ hidden (success (doc (snd (on_submit E w)))) = false.
Proof.
  intros E w.
  assert (Hok : ok (validate (lead_form (doc w))) = true) by reflexivity.
  assert (Hacc : accepted E
                   (template_API_BASE_URL (API_BASE_URL w) ++ lit "/lead")
                   (post_init E (buildPayload E (lead_form (doc w))))
                   default_timeoutMs Examples.created_doc).
  { exists 120%Z,
      (Examples.json_response 200 (lit "OK") Examples.created_text).
    repeat split; reflexivity. }
  split; [exact Hok|].
  destruct (accepted_submission_resets_form E w Examples.created_doc Hok Hacc)
    as (H1 & H2 & _ & _ & H5 & _).
  split; [exact H1|]. split; [exact H5 | exact H2].
Defined.

Lemma failed_submission_witness :
  let E := Examples.rejecting Examples.base in
  let w := Examples.ready Examples.base Examples.jane_form in
  ok (validate (lead_form (doc w))) = true
  /\ fst (on_submit E w) = Return tt
  /\ textContent (failure (doc (snd (on_submit E w)))) = went_wrong_text
  /\ lead_form (doc (snd (on_submit E w))) = Examples.jane_form.
Proof.
  intros E w.
  assert (Hok : ok (validate (lead_form (doc w))) = true) by reflexivity.
  assert (N : network E
                (template_API_BASE_URL (API_BASE_URL w) ++ lit "/lead")
                (post_init E (buildPayload E (lead_form (doc w))))
              = Resolves 120
                  (Examples.json_response 400 (lit "Bad Request")
                     Examples.refusal_text)) by reflexivity.
  assert (Hna : forall p,
             ~ accepted E
                 (template_API_BASE_URL (API_BASE_URL w) ++ lit "/lead")
                 (post_init E (buildPayload E (lead_form (doc w))))
                 default_timeoutMs p).
  { intros p (ms & res & N' & _ & K & _). rewrite N in N'.
    injection N' as _ <-. discriminate K. }
  assert (Hns : ~ body_stalls E
                    (template_API_BASE_URL (API_BASE_URL w) ++ lit "/lead")
                    (post_init E (buildPayload E (lead_form (doc w))))
                    default_timeoutMs).
  { intros (ms & res & N' & _ & B). rewrite N in N'.
    injection N' as _ <-. discriminate B. }
  split; [exact Hok|].
  destruct (failed_submission_keeps_form E w Hok Hna Hns)
    as (H1 & _ & H3 & _ & H5 & _).
  split; [exact H1|]. split; [exact H3 | exact H5].
Defined.

Lemma cleared_errors_witness :
  let E := Examples.rejecting Examples.base in
  let w :=
    {| doc := with_error_slots (Examples.page Examples.jane_form)
                [(lit "email", lit "Please enter a valid email.")];
       API_BASE_URL := Some Examples.base; listening := true; log := [] |} in
  ok (validate (lead_form (doc w))) = true
  /\ get_prop (error_slots (doc (snd (on_submit E w)))) (lit "email")
     = Some [].
Proof.
  intros E w.
  assert (Hok : ok (validate (lead_form (doc w))) = true) by reflexivity.
  split; [exact Hok|].
  apply (valid_submission_clears_field_errors E w Hok (lit "email")
           (lit "Please enter a valid email.")).
  - right; left; reflexivity.
  - reflexivity.
Defined.

Lemma configured_page_witness :
  let E := Examples.deployed Examples.base in
  let d0 := Examples.page Examples.blank_form in
  config_names E Examples.base
  /\ listening (snd (on_DOMContentLoaded E (initial_world d0))) = true
  /\ submit_btn (doc (snd (on_DOMContentLoaded E (initial_world d0))))
     = {| disabled := false; class_loading := false |}.
Proof.
  intros E d0.
  assert (H : config_names E Examples.base).
  { exists 20%Z,
      (Examples.json_response 200 (lit "OK")
         (Examples.config_text Examples.base)),
      (Examples.config_text Examples.base),
      (Examples.config_doc Examples.base).
    repeat split; reflexivity. }
  assert (Hb : replace_trailing_solidus (trim Examples.base) <> [])
    by (vm_compute; discriminate).
  split; [exact H|].
  destruct (configured_page_is_left_as_found E d0 Examples.base H Hb)
    as (Eq & _).
  rewrite Eq. split; reflexivity.
Defined.

Lemma lone_solidus_witness :
  let s := lit " / " in
  let E := Examples.deployed s in
  let d0 := Examples.page Examples.blank_form in
  config_names E s
  /\ listening (snd (on_DOMContentLoaded E (initial_world d0))) = false
  /\ disabled (submit_btn (doc (snd (on_DOMContentLoaded E (initial_world d0)))))
     = true.
Proof.
  intros s E d0.
  assert (H : config_names E s).
  { exists 20%Z,
      (Examples.json_response 200 (lit "OK") (Examples.config_text s)),
      (Examples.config_text s), (Examples.config_doc s).
    repeat split; reflexivity. }
  assert (Ht : trim s = [solidus]) by reflexivity.
  split; [exact H|].
  destruct (lone_solidus_base_disables_page E d0 s H Ht)
    as (_ & _ & H3 & H4 & _).
  split; [exact H3 | exact H4].
Defined.

Lemma stalled_configuration_witness :
  let E := Examples.surroundings Stalls Stalls [] in
  let d0 := Examples.page Examples.blank_form in
  config_stalls E
  /\ fst (on_DOMContentLoaded E (initial_world d0)) = Pending
  /\ listening (snd (on_DOMContentLoaded E (initial_world d0))) = false.
Proof.
  intros E d0.
  assert (H : config_stalls E) by (left; reflexivity).
  split; [exact H|].
  destruct (stalled_configuration_leaves_page_inert E d0 H) as (Eq & _).
  rewrite Eq. split; reflexivity.
Defined.
